(** * llama-term: a shallow embedding of [llama-term.py]

    The development follows the layout of the script:

    - [PyStr]: the Python string operations the script relies on
      ([in], [startswith], [endswith], [strip], [lower]);
    - [Distro]: [is_command_for_distro];
    - [Valid] and [Extract]: [is_valid_command] and [extract_command];
    - [Ollama]: the stream-consuming loop of [query_ollama];
    - [Shell]: [execute_command] and the recovery flow that follows the
      first execution in [main];
    - [Controller]: the bounded clarification loop of [main];
    - [Probe]: [get_distro_and_family];
    - [Main]: the outer loop of [main], one request after the other.

    Python [str] values are modelled as lists of 8-bit characters, read as
    the code points 0..255; [isspace] and [lower] are the restrictions of
    Python's [str.isspace] and [str.lower] to that range. *)

From Stdlib Require Import List Ascii String ZArith Lia Bool Arith.
Import ListNotations.

(* ------------------------------------------------------------------ *)
(** ** Python strings *)

Module PyStr.

Definition str := list ascii.

(** Literals are written [py "text"]. *)
Definition py (s : string) : str := list_ascii_of_string s.

Arguments py : simpl never.

Definition code (c : ascii) : nat := nat_of_ascii c.

Definition newline : ascii := ascii_of_nat 10.
Definition backtick : ascii := ascii_of_nat 96.
Definition qmark : ascii := ascii_of_nat 63.

(** [str.isspace] on one character: TAB..CR, FS..US, SPACE, NEL, NBSP. *)
Definition isspace (c : ascii) : bool :=
  let n := code c in
  ((9 <=? n) && (n <=? 13)) || ((28 <=? n) && (n <=? 32))
  || (n =? 133) || (n =? 160).

(** [str.lower] on one character: A..Z, and the Latin-1 capitals
    0xC0..0xDE except the multiplication sign 0xD7. *)
Definition lower_char (c : ascii) : ascii :=
  let n := code c in
  if ((65 <=? n) && (n <=? 90))
     || ((192 <=? n) && (n <=? 222) && negb (n =? 215))
  then ascii_of_nat (n + 32) else c.

Definition lower (s : str) : str := map lower_char s.

Definition ascii_eqb (a b : ascii) : bool := Ascii.eqb a b.

Fixpoint str_eqb (a b : str) : bool :=
  match a, b with
  | [], [] => true
  | x :: a', y :: b' => ascii_eqb x y && str_eqb a' b'
  | _, _ => false
  end.

(** [s.startswith(p)] *)
Fixpoint startswith (s p : str) : bool :=
  match p, s with
  | [], _ => true
  | x :: p', y :: s' => ascii_eqb x y && startswith s' p'
  | _ :: _, [] => false
  end.

(** [sub in s] *)
Fixpoint contains (sub s : str) : bool :=
  startswith s sub ||
  match s with
  | [] => false
  | _ :: s' => contains sub s'
  end.

(** [c in s] for a one-character needle. *)
Definition has_char (c : ascii) (s : str) : bool :=
  existsb (ascii_eqb c) s.

Fixpoint lstrip (s : str) : str :=
  match s with
  | [] => []
  | c :: s' => if isspace c then lstrip s' else s
  end.

Definition rstrip (s : str) : str := rev (lstrip (rev s)).

(** [s.strip()] *)
Definition strip (s : str) : str := rstrip (lstrip s).

(** [s.endswith(c)] for a one-character suffix. *)
Definition endswith_char (s : str) (c : ascii) : bool :=
  match rev s with
  | [] => false
  | x :: _ => ascii_eqb x c
  end.

(** Truthiness of a string: [if s:] holds for the non-empty strings. *)
Definition truthy (s : str) : bool :=
  match s with [] => false | _ :: _ => true end.

(** [s in tuple] *)
Definition member (s : str) (l : list str) : bool :=
  existsb (str_eqb s) l.

(** Lookup of [key] in a dictionary given by its items; [None] when
    the key is absent. *)
Fixpoint dict_get {A} (key : str) (d : list (str * A)) : option A :=
  match d with
  | [] => None
  | (k, v) :: d' => if str_eqb key k then Some v else dict_get key d'
  end.

(** Declarative counterpart of [contains]. *)
Definition occurs_in (sub s : str) : Prop :=
  exists pre post, s = pre ++ sub ++ post.

(** No whitespace at either end. *)
Definition trimmed (s : str) : Prop :=
  (forall c t, s = c :: t -> isspace c = false)
  /\ (forall c t, s = t ++ [c] -> isspace c = false).

End PyStr.

Import PyStr.

(* ------------------------------------------------------------------ *)
(** ** Distro policy filter *)

Module Distro.

Definition pm_keywords : list str :=
  [py "apt"; py "apt-get"; py "dpkg"; py "pacman"; py "dnf"; py "yum"].

(** The dictionary [expected_pm], as its list of items. *)
Definition expected_pm : list (str * list str) :=
  [ (py "Ubuntu/Debian-based", [py "apt"; py "apt-get"; py "dpkg"]);
    (py "Arch-based", [py "pacman"]);
    (py "Fedora/RHEL-based", [py "dnf"; py "yum"]) ].

(** [any(keyword in cmd_lower for keyword in keywords)] *)
Definition any_keyword_in (keywords : list str) (cmd_lower : str) : bool :=
  existsb (fun keyword => contains keyword cmd_lower) keywords.

Definition is_command_for_distro (cmd family : str) : bool :=
  let cmd_lower := lower cmd in
  if any_keyword_in pm_keywords cmd_lower then
    match dict_get family expected_pm with
    | Some expected =>
        if any_keyword_in expected cmd_lower then true else false
    | None => true
    end
  else true.

(** The lowercased command contains one of [keywords] as a substring. *)
Definition mentions (keywords : list str) (cmd : str) : Prop :=
  exists k, In k keywords /\ occurs_in k (lower cmd).

End Distro.

(* ------------------------------------------------------------------ *)
(** ** Response interpreter: validity heuristics *)

Module Valid.

Definition conversation_starters : list str :=
  [py "it "; py "i'm"; py "hello"; py "hi"; py "sure"; py "ok"; py "yes"].

Definition is_valid_command (cmd0 : str) : bool :=
  let cmd := strip cmd0 in
  if negb (truthy cmd) then false
  else if has_char newline cmd then false
  else
    let lower := lower cmd in
    if existsb (fun starter => startswith lower starter) conversation_starters
    then false
    else if contains (py "command:") lower || contains (py "output:") lower
    then false
    else true.

End Valid.


(* ------------------------------------------------------------------ *)
(** ** Response interpreter: extraction *)

Module Extract.

(** The longest backtick-free prefix of [s], and what follows it: the
    greedy class [[^`]+] of the first pattern. *)
Fixpoint span_no_tick (s : str) : str * str :=
  match s with
  | [] => ([], [])
  | c :: s' =>
      if ascii_eqb c backtick then ([], s)
      else let (body, rest) := span_no_tick s' in (c :: body, rest)
  end.

(** The first pattern, a backtick, one or more non-backticks, a backtick,
    anchored at the head of [s]; the result is group 1.  The greedy run
    stops at a backtick or at the end of the text, so giving characters
    back never helps: the match succeeds exactly when the run is non-empty
    and followed by a backtick. *)
Definition match_single_at (s : str) : option str :=
  match s with
  | [] => None
  | c :: s' =>
      if ascii_eqb c backtick then
        match span_no_tick s' with
        | (x :: body, _ :: _) => Some (x :: body)
        | _ => None
        end
      else None
  end.

(** [re.search] with the first pattern: leftmost start position. *)
Fixpoint search_single (s : str) : option str :=
  match match_single_at s with
  | Some g => Some g
  | None =>
      match s with
      | [] => None
      | _ :: s' => search_single s'
      end
  end.

Definition fence : str := [backtick; backtick; backtick].

(** The shortest prefix of [s] that is followed by a fence. *)
Fixpoint until_fence (s : str) : option str :=
  if startswith s fence then Some []
  else
    match s with
    | [] => None
    | c :: s' => option_map (cons c) (until_fence s')
    end.

(** The second pattern, a fence, one or more characters of any kind taken
    lazily, a fence, anchored at the head of [s]; the result is group 1. *)
Definition match_triple_at (s : str) : option str :=
  if startswith s fence then
    match skipn 3 s with
    | [] => None
    | c :: rest => option_map (cons c) (until_fence rest)
    end
  else None.

(** [re.search] with the second pattern. *)
Fixpoint search_triple (s : str) : option str :=
  match match_triple_at s with
  | Some g => Some g
  | None =>
      match s with
      | [] => None
      | _ :: s' => search_triple s'
      end
  end.

Definition extract_command (response_text : str) : str :=
  match search_single response_text with
  | Some group1 => strip group1
  | None =>
      match search_triple response_text with
      | Some group1 => strip group1
      | None => []
      end
  end.

(** [body] is a span of [s] starting after [pre]: it stands between two
    backticks, is not empty and holds no backtick. *)
Definition is_span (s pre body post : str) : Prop :=
  s = pre ++ backtick :: body ++ backtick :: post
  /\ body <> [] /\ ~ In backtick body.

(** The leftmost span of [s]. *)
Definition first_span (s pre body post : str) : Prop :=
  is_span s pre body post
  /\ forall pre' body' post',
       is_span s pre' body' post' -> List.length pre <= List.length pre'.

(** A run of [k] backticks. *)
Definition ticks (k : nat) : str := repeat backtick k.

End Extract.


(* ------------------------------------------------------------------ *)
(** ** LLM client: consuming the streamed answer *)

Module Ollama.

(** Values produced by [json.loads] (numbers restricted to integers). *)
#[warnings="-register-all"]
Inductive json :=
| JNull
| JBool (b : bool)
| JNum (z : Z)
| JStr (s : str)
| JArr (elements : list json)
| JObj (items : list (str * json)).

(** One element of [response.iter_lines(...)], together with what
    [json.loads] makes of it: the empty line, a line on which decoding
    raises [JSONDecodeError], a line that decodes to [data], or a line
    on which [json.loads] raises another exception ([UnicodeDecodeError]
    on bytes that are not UTF-8, [ValueError] on an integer literal
    beyond the digit limit, [RecursionError] on deep nesting). *)
Inductive stream_line :=
| Blank
| Malformed (text : str)
| Fragment (data : json)
| Raising (text : str).

(** Python truthiness of a decoded value. *)
Definition json_truthy (v : json) : bool :=
  match v with
  | JNull => false
  | JBool b => b
  | JNum z => negb (z =? 0)%Z
  | JStr s => truthy s
  | JArr elements => match elements with [] => false | _ => true end
  | JObj items => match items with [] => false | _ => true end
  end.

(** [data.get(key, default)]: only a dictionary has the method, on any
    other value the attribute lookup raises ([None] here). *)
Definition get (data : json) (key : str) (default : json) : option json :=
  match data with
  | JObj items =>
      Some (match dict_get key items with
            | Some v => v
            | None => default
            end)
  | _ => None
  end.

(** The [for line in ...] loop; [None] is an exception other than
    [JSONDecodeError], which leaves the loop for the outer handler: out
    of [json.loads] itself, or out of [get] on a value that is not a
    dictionary. *)
Fixpoint iter_lines (lines : list stream_line) (output_parts : list json)
  : option (list json) :=
  match lines with
  | [] => Some output_parts
  | Blank :: rest => iter_lines rest output_parts
  | Malformed _ :: rest => iter_lines rest output_parts
  | Fragment data :: rest =>
      match get data (py "response") (JStr []) with
      | None => None
      | Some part =>
          let output_parts := output_parts ++ [part] in
          match get data (py "done") (JBool false) with
          | None => None
          | Some done =>
              if json_truthy done then Some output_parts
              else iter_lines rest output_parts
          end
      end
  | Raising _ :: _ => None
  end.

(** [''.join(parts)]: raises on an element that is not a string. *)
Fixpoint join (parts : list json) : option str :=
  match parts with
  | [] => Some []
  | JStr s :: parts' => option_map (app s) (join parts')
  | _ :: _ => None
  end.

(** The body of the [try] once the request has succeeded. *)
Definition consume (lines : list stream_line) : option str :=
  match iter_lines lines [] with
  | None => None
  | Some output_parts => option_map strip (join output_parts)
  end.

(** [query_ollama], given the outcome of the HTTP exchange: [None] when
    [requests.post] or [raise_for_status] raises, the streamed lines
    otherwise. *)
Definition query_ollama (exchange : option (list stream_line)) : option str :=
  match exchange with
  | None => None
  | Some lines => consume lines
  end.

(** The fragments the specification speaks of: the [response] texts of the
    decoded lines, up to and including the first one whose [done] is set. *)
Definition response_text (data : json) : str :=
  match data with
  | JObj items =>
      match dict_get (py "response") items with
      | Some (JStr s) => s
      | _ => []
      end
  | _ => []
  end.

Definition is_done (data : json) : bool :=
  match data with
  | JObj items =>
      match dict_get (py "done") items with
      | Some v => json_truthy v
      | None => false
      end
  | _ => false
  end.

Fixpoint accumulated (lines : list stream_line) : list str :=
  match lines with
  | [] => []
  | Fragment data :: rest =>
      response_text data :: (if is_done data then [] else accumulated rest)
  | Raising _ :: _ => []
  | _ :: rest => accumulated rest
  end.

(** A line that does no harm: every line but one on which [json.loads]
    raises something else than [JSONDecodeError], and but a decoded line
    that is not of the shape the endpoint documents, an object whose
    [response], when present, is a string. *)
Definition well_formed (line : stream_line) : bool :=
  match line with
  | Fragment (JObj items) =>
      match dict_get (py "response") items with
      | Some (JStr _) | None => true
      | Some _ => false
      end
  | Fragment _ => false
  | Raising _ => false
  | _ => true
  end.

End Ollama.

(* ------------------------------------------------------------------ *)
(** ** Execution and recovery *)

Module Shell.

(** What [subprocess.run(command, shell=True)] does: it completes with a
    return code, or raises an [Exception] carrying a message. *)
Inductive run_outcome :=
| Completed (returncode : Z)
| Raised (message : str).

(** What [main] prints after the first execution. *)
Inductive report :=
| GroupCreated
| ExitedAfterGroup (retcode : Z)
| SucceededAfterGroup
| GroupCreationFailed
| AbortedMissingGroup
| Exited (retcode : Z)
| SucceededWithSudo
| Succeeded.

Record world := {
  stdin : list str;        (* lines still to be read by [input] *)
  executed : list str;     (* commands handed to the shell, oldest first *)
  printed : list report
}.

(** Stateful computations; [None] is [EOFError] raised by [input]. *)
Definition M (A : Type) : Type := world -> option (A * world).

Definition ret {A} (a : A) : M A := fun w => Some (a, w).

Definition bind {A B} (m : M A) (f : A -> M B) : M B :=
  fun w => match m w with
           | None => None
           | Some (a, w') => f a w'
           end.

Notation "x <- m ;; k" := (bind m (fun x => k))
  (at level 61, m at next level, right associativity).
Notation "m ;;; k" := (bind m (fun _ => k))
  (at level 61, right associativity).

Definition input : M str :=
  fun w => match stdin w with
           | [] => None
           | line :: rest =>
               Some (line, {| stdin := rest; executed := executed w;
                              printed := printed w |})
           end.

Definition print (r : report) : M unit :=
  fun w => Some (tt, {| stdin := stdin w; executed := executed w;
                        printed := printed w ++ [r] |}).

(** The return code [execute_command] reports for an outcome. *)
Definition exit_code (o : run_outcome) : Z :=
  match o with
  | Completed returncode => returncode
  | Raised _ => (-1)%Z
  end.

Definition groupadd : str := py "sudo groupadd docker".

Section WithShell.

(** The environment: the outcome of running a command, given the commands
    run before it. *)
Variable sh : list str -> str -> run_outcome.

Definition subprocess_run (command : str) : M run_outcome :=
  fun w => Some (sh (executed w) command,
                 {| stdin := stdin w; executed := executed w ++ [command];
                    printed := printed w |}).

Definition execute_command (command : str)
  : M (Z * option str * option str) :=
  result <- subprocess_run command ;;
  match result with
  | Completed returncode => ret (returncode, None, None)
  | Raised e => ret ((-1)%Z, None, Some e)
  end.

Definition affirmative : list str := [py "y"; py "yes"; py ""].

(** Lines 251-282 of [main]: the first execution and what follows it. *)
Definition execute_and_recover (final_command : str) : M unit :=
  r <- execute_command final_command ;;
  let '(retcode, _, _) := r in
  if negb (retcode =? 0)%Z
     && contains (py "usermod") (lower final_command)
     && contains (py "docker") (lower final_command)
  then
    line <- input ;;
    let create_group := lower (strip line) in
    if member create_group affirmative then
      r2 <- execute_command (py "sudo groupadd docker") ;;
      let '(retcode2, _, _) := r2 in
      if (retcode2 =? 0)%Z then
        print GroupCreated ;;;
        r3 <- execute_command final_command ;;
        let '(retcode, _, _) := r3 in
        if negb (retcode =? 0)%Z then print (ExitedAfterGroup retcode)
        else print SucceededAfterGroup
      else print GroupCreationFailed
    else print AbortedMissingGroup
  else if negb (retcode =? 0)%Z then
    line <- input ;;
    let sudo_confirm := lower (strip line) in
    if member sudo_confirm affirmative then
      let final_command :=
        if negb (startswith (strip final_command) (py "sudo"))
        then py "sudo " ++ final_command else final_command in
      r2 <- execute_command final_command ;;
      let '(retcode, _, _) := r2 in
      if negb (retcode =? 0)%Z then print (Exited retcode)
      else print SucceededWithSudo
    else print (Exited retcode)
  else print Succeeded.

(** The state after [execute_and_recover], when it returns. *)
Definition ends_in (final_command : str) (w w' : world) : Prop :=
  execute_and_recover final_command w = Some (tt, w').

End WithShell.


(** A shell in which the command fails until the group exists. *)
Definition sample_shell (log : list str) (command : str) : run_outcome :=
  if str_eqb command groupadd then Completed 0
  else if member groupadd log then Completed 0 else Completed 6.

(** The command the sudo branch runs. *)
Definition sudo_form (final_command : str) : str :=
  if startswith (strip final_command) (py "sudo") then final_command
  else py "sudo " ++ final_command.

Definition docker_group_case (final_command : str) : bool :=
  contains (py "usermod") (lower final_command)
  && contains (py "docker") (lower final_command).

(** The state [execute_and_recover] ends in, written out branch by
    branch; [None] where [input] finds no line. *)
Definition recovered (sh : list str -> str -> run_outcome)
    (final_command : str) (w : world) : option world :=
  let log1 := executed w ++ [final_command] in
  let rc1 := exit_code (sh (executed w) final_command) in
  let done log reports rest :=
    Some {| stdin := rest; executed := log;
            printed := printed w ++ reports |} in
  if (rc1 =? 0)%Z then done log1 [Succeeded] (stdin w)
  else
    match stdin w with
    | [] => None
    | line :: rest =>
        let yes := member (lower (strip line)) affirmative in
        if docker_group_case final_command then
          if yes then
            if (exit_code (sh log1 groupadd) =? 0)%Z then
              let rc3 := exit_code (sh (log1 ++ [groupadd]) final_command) in
              done (log1 ++ [groupadd; final_command])
                   [GroupCreated;
                    if (rc3 =? 0)%Z then SucceededAfterGroup
                    else ExitedAfterGroup rc3]
                   rest
            else done (log1 ++ [groupadd]) [GroupCreationFailed] rest
          else done log1 [AbortedMissingGroup] rest
        else
          if yes then
            let rc2 := exit_code (sh log1 (sudo_form final_command)) in
            done (log1 ++ [sudo_form final_command])
                 [if (rc2 =? 0)%Z then SucceededWithSudo else Exited rc2]
                 rest
          else done log1 [Exited rc1] rest
    end.

End Shell.

(* ------------------------------------------------------------------ *)
(** ** Conversation controller *)

Module Controller.

Import Distro Valid Extract.

Definition BASE_PROMPT : str :=
  py "You are a Unix command line assistant. "
  ++ py "Your job is to generate command line commands for the user. "
  ++ py "If you have enough information, respond ONLY with the Unix command enclosed in backticks (for example, `mkdir test`) and nothing else. "
  ++ py "If you need clarification, ask a single clarifying question ending with a question mark (?)."
  ++ [newline].

Definition build_prompt (conversation_history : list str) (family : str)
  : str :=
  let prompt := BASE_PROMPT ++ [newline] in
  let prompt := prompt ++ py "System distribution: " ++ family ++ [newline] in
  fold_left (fun prompt entry => prompt ++ entry ++ [newline])
            conversation_history prompt.

(** What one request does that can be observed from outside: the calls
    to [query_ollama], the reads from the terminal and the messages. *)
Inductive event :=
| Query (prompt : str)
| SayNoResponse
| SayMismatch (candidate expected : str)
| AskClarification
| SayAborted
| SayNoClarificationMismatch
| SayLLMAsks (llm_response : str)
| SayNoClarificationQuestion
| SayInvalid.

(** The local variables of the request loop. *)
Record locals := {
  conversation_history : list str;
  final_command : option str;
  iteration : nat
}.

Definition max_iterations : nat := 5.

Definition cancel_words : list str :=
  [py "cancel"; py "break"; py "exit"; py "quit"].

(** How one pass through the loop body ends; [Eof] is [EOFError] raised
    by [input] when the terminal has no line left. *)
Inductive exit := Break | Continue | Eof.

Record pass := {
  how : exit;
  vars : locals;
  stdin : list str;
  events : list event
}.

Definition expected_name (family : str) : str :=
  if str_eqb family (py "Ubuntu/Debian-based") then py "apt/dpkg"
  else if str_eqb family (py "Fedora/RHEL-based") then py "dnf/yum"
  else py "the distro's package manager".

Definition set_final (v : locals) (f : option str) : locals :=
  {| conversation_history := conversation_history v;
     final_command := f;
     iteration := iteration v |}.

Definition append_history (v : locals) (entry : str) : locals :=
  {| conversation_history := conversation_history v ++ [entry];
     final_command := final_command v;
     iteration := iteration v |}.

Definition incr_iteration (v : locals) : locals :=
  {| conversation_history := conversation_history v;
     final_command := final_command v;
     iteration := iteration v + 1 |}.

(** The clarification exchange shared by the two branches: the prompt,
    the cancellation words, the empty answer, the recorded answer.
    [label] is the history label of the assistant's turn and [nag] the
    message printed on an empty answer. *)
Definition clarify (label : str) (nag : event) (llm_response : str)
    (v : locals) (stdin : list str) (said : list event) : pass :=
  match stdin with
  | [] => {| how := Eof; vars := v; stdin := [];
             events := said ++ [AskClarification] |}
  | line :: stdin' =>
      let clarification := strip line in
      let said := said ++ [AskClarification] in
      if member (lower clarification) cancel_words then
        {| how := Break; vars := set_final v None; stdin := stdin';
           events := said ++ [SayAborted] |}
      else if negb (truthy clarification) then
        {| how := Continue; vars := v; stdin := stdin';
           events := said ++ [nag] |}
      else
        let v := append_history v (label ++ llm_response) in
        let v := append_history v (py "User: " ++ clarification) in
        let v := incr_iteration v in
        {| how := Continue; vars := v; stdin := stdin'; events := said |}
  end.

(** Lines 189-236: the body of the [while], after [query_ollama] has
    returned [answer]. *)
Definition loop_body (family : str) (v : locals) (answer : option str)
    (stdin : list str) : pass :=
  match answer with
  | None | Some [] =>
      {| how := Break; vars := v; stdin := stdin;
         events := [SayNoResponse] |}
  | Some llm_response =>
      let candidate := extract_command llm_response in
      if truthy candidate && is_valid_command candidate then
        if negb (is_command_for_distro candidate family) then
          clarify (py "Assistant (mismatch): ") SayNoClarificationMismatch
                  llm_response v stdin
                  [SayMismatch candidate (expected_name family)]
        else
          let v := set_final v (Some candidate) in
          let v := append_history v (py "Assistant: " ++ llm_response) in
          {| how := Break; vars := v; stdin := stdin; events := [] |}
      else if endswith_char (strip llm_response) qmark then
        clarify (py "Assistant: ") SayNoClarificationQuestion
                llm_response v stdin [SayLLMAsks llm_response]
      else
        {| how := Break; vars := set_final v None; stdin := stdin;
           events := [SayInvalid] |}
  end.

(** Where the request loop stands: still looping, left (by [break] or by
    its test), dead on [EOFError], or waiting for an answer the script of
    LLM answers does not contain. *)
Inductive status := Running | Stopped | Crashed | Waiting.

Record config := {
  st : status;
  now : locals;
  llm : list (option str);   (* values the next calls to [query_ollama] return *)
  tty : list str;            (* lines the next calls to [input] return *)
  trace : list event
}.

(** One evaluation of the [while] test and, when it holds, of the body. *)
Definition loop_iter (family : str) (c : config) : config :=
  match st c with
  | Running =>
      if iteration (now c) <? max_iterations then
        let prompt := build_prompt (conversation_history (now c)) family in
        match llm c with
        | [] => {| st := Waiting; now := now c; llm := []; tty := tty c;
                   trace := trace c |}
        | answer :: llm' =>
            let p := loop_body family (now c) answer (tty c) in
            {| st := match how p with
                     | Break => Stopped
                     | Continue => Running
                     | Eof => Crashed
                     end;
               now := vars p; llm := llm'; tty := stdin p;
               trace := trace c ++ Query prompt :: events p |}
        end
      else
        {| st := Stopped; now := now c; llm := llm c; tty := tty c;
           trace := trace c |}
  | _ => c
  end.

Fixpoint run (family : str) (n : nat) (c : config) : config :=
  match n with
  | 0 => c
  | S n' => run family n' (loop_iter family c)
  end.

(** Lines 179-183: the state in which a request enters the loop. *)
Definition start (user_instruction : str) (answers : list (option str))
    (lines : list str) : config :=
  {| st := Running;
     now := {| conversation_history := [py "User: " ++ user_instruction];
               final_command := None;
               iteration := 0 |};
     llm := answers; tty := lines; trace := [] |}.

(** The whole request loop.  Every pass that keeps the loop running takes
    one answer from the script, so one more pass than there are answers
    is enough (see [request_loop_settles]). *)
Definition request_loop (family user_instruction : str)
    (answers : list (option str)) (lines : list str) : config :=
  run family (S (List.length answers)) (start user_instruction answers lines).

Definition llm_calls (c : config) : nat :=
  List.length (filter (fun e => match e with Query _ => true | _ => false end)
                 (trace c)).

Definition clarification_prompts (c : config) : nat :=
  List.length (filter (fun e => match e with AskClarification => true
                                   | _ => false end)
                 (trace c)).

(** The test that sends a response down the command branch. *)
Definition command_attempt (llm_response : str) : bool :=
  truthy (extract_command llm_response)
  && is_valid_command (extract_command llm_response).

(** The two clarification states, as conditions on the response. *)
Definition clarify_mismatch (family llm_response : str) : Prop :=
  command_attempt llm_response = true
  /\ is_command_for_distro (extract_command llm_response) family = false.

Definition clarify_question (llm_response : str) : Prop :=
  command_attempt llm_response = false
  /\ endswith_char (strip llm_response) qmark = true.

(** A command the interpreter and the policy filter both let through,
    extracted from one of the answers of the script. *)
Definition approved (family : str) (answers : list (option str))
    (cmd : str) : Prop :=
  exists llm_response,
    In (Some llm_response) answers
    /\ cmd = extract_command llm_response
    /\ is_valid_command cmd = true
    /\ is_command_for_distro cmd family = true.

(** What the pass shows the user before it asks, in either
    clarification state. *)
Definition shown_for (family llm_response : str) : event :=
  if command_attempt llm_response
  then SayMismatch (extract_command llm_response) (expected_name family)
  else SayLLMAsks llm_response.

Definition nag_for (llm_response : str) : event :=
  if command_attempt llm_response then SayNoClarificationMismatch
  else SayNoClarificationQuestion.

(** What holds of every configuration the loop reaches. *)
Record sound (c : config) : Prop := {
  sound_bound : iteration (now c) <= max_iterations;
  sound_running : st c = Running -> final_command (now c) = None;
  sound_final :
    final_command (now c) <> None -> iteration (now c) < max_iterations;
  sound_ceiling :
    iteration (now c) = max_iterations -> st c = Running \/ st c = Stopped
}.

(** The history label of the assistant's turn in either clarification
    state. *)
Definition label_for (llm_response : str) : str :=
  if command_attempt llm_response then py "Assistant (mismatch): "
  else py "Assistant: ".

(** The rendering of history entries in the prompt. *)
Definition rendered (entries : list str) : str :=
  List.concat (map (fun entry => entry ++ [newline]) entries).

(** The number of history entries the variables account for: the
    instruction, two per clarification, one for an accepted answer. *)
Definition tally (v : locals) : nat :=
  1 + 2 * iteration v
  + match final_command v with Some _ => 1 | None => 0 end.

Definition is_query (e : event) : bool :=
  match e with Query _ => true | _ => false end.

End Controller.


(* ------------------------------------------------------------------ *)
(** ** Environment probe *)

Module Probe.

Import Distro.

Definition equals_sign : ascii := ascii_of_nat 61.
Definition dquote : ascii := ascii_of_nat 34.

(** [s.split(sep)] for a one-character separator: the fields between the
    occurrences of [sep], of which there is always at least one. *)
Fixpoint split_on (sep : ascii) (s : str) : list str :=
  match s with
  | [] => [[]]
  | c :: s' =>
      if ascii_eqb c sep then [] :: split_on sep s'
      else
        match split_on sep s' with
        | [] => [[c]]
        | field :: fields => (c :: field) :: fields
        end
  end.

(** [s.lstrip(chars)] and [s.strip(chars)]. *)
Fixpoint lstrip_chars (chars s : str) : str :=
  match s with
  | [] => []
  | c :: s' => if has_char c chars then lstrip_chars chars s' else s
  end.

Definition strip_chars (chars s : str) : str :=
  rev (lstrip_chars chars (rev (lstrip_chars chars s))).

(** The right-hand side of the assignment on line 18; [None] is the
    [IndexError] of [[1]] on a list with a single field. *)
Definition distro_of_line (line : str) : option str :=
  match nth_error (split_on equals_sign line) 1 with
  | None => None
  | Some field => Some (lower (strip_chars [dquote] (strip field)))
  end.

(** How the iteration over the file ends once the loop has taken every
    line it is handed: at the end of the file, or by raising (a byte that
    cannot be decoded, an I/O error). *)
Inductive read_end := EndOfFile | ReadRaises.

(** What reading [/etc/os-release] gives: [open] raises; or the file
    opens, the iteration hands [delivered] to the loop, line after line
    (each with its line terminator) for as long as the loop asks, and,
    once they are all taken, ends as [last] says.  Text-mode reading decodes a whole chunk ahead of the lines it hands
    over, so a byte that cannot be decoded keeps back every line of its
    chunk, also the lines before it: [delivered] holds the lines of the
    chunks read without error, not the lines of the file up to the bad
    byte. *)
Inductive os_release :=
| OpenRaises
| Opened (delivered : list str) (last : read_end).

(** The [for line in f] loop with its [break]; the outer [None] is an
    exception, which leaves the [try]: out of the lookup of the second
    field, or out of the read that follows the last line delivered. *)
Fixpoint scan (lines : list str) (last : read_end) (distro : str)
  : option str :=
  match lines with
  | [] =>
      match last with
      | EndOfFile => Some distro
      | ReadRaises => None
      end
  | line :: rest =>
      if startswith line (py "ID=") then distro_of_line line
      else scan rest last distro
  end.

Definition debian_ids : list str :=
  [py "ubuntu"; py "debian"; py "mint"; py "elementary"; py "pop"].
Definition arch_ids : list str :=
  [py "endeavouros"; py "arch"; py "manjaro"].
Definition rhel_ids : list str :=
  [py "fedora"; py "centos"; py "rhel"].

(** Lines 23-30: the broad family of a distro id. *)
Definition family_of (distro : str) : str :=
  if member distro debian_ids then py "Ubuntu/Debian-based"
  else if member distro arch_ids then py "Arch-based"
  else if member distro rhel_ids then py "Fedora/RHEL-based"
  else distro.

(** [get_distro_and_family], given what reading [/etc/os-release]
    gives.  Every exception of the [try] leaves [distro] as it was
    initialised. *)
Definition get_distro_and_family (file : os_release) : str * str :=
  let distro :=
    match file with
    | OpenRaises => py "unknown"
    | Opened lines last =>
        match scan lines last (py "unknown") with
        | Some distro => distro
        | None => py "unknown"
        end
    end in
  (distro, family_of distro).

(** The ids the table of families knows. *)
Definition known_ids : list str := debian_ids ++ arch_ids ++ rhel_ids.

(** The letters A..Z. *)
Definition is_upper (c : ascii) : bool :=
  (65 <=? code c) && (code c <=? 90).

(** The text up to the first separator, and what follows that separator
    when there is one. *)
Fixpoint until_sep (sep : ascii) (s : str) : str * option str :=
  match s with
  | [] => ([], None)
  | c :: s' =>
      if ascii_eqb c sep then ([], Some s')
      else let (field, tail) := until_sep sep s' in (c :: field, tail)
  end.

End Probe.

(* ------------------------------------------------------------------ *)
(** ** The main loop *)

Module Main.

Import Controller.

(** What the outer loop itself prints. *)
Inductive notice :=
| Exiting
| NoValidCommand
| Suggested (final_command : str)
| Skipped.

(** Everything written to the terminal, in order. *)
Inductive output :=
| FromMain (n : notice)
| FromController (e : event)
| FromShell (r : Shell.report).

(** What one session has left and has done: the answers still to come
    from [query_ollama], the lines still to be typed, the commands handed
    to the shell and the transcript. *)
Record session := {
  answers : list (option str);
  keyboard : list str;
  shell_log : list str;
  transcript : list output
}.

(** How one pass of the [while True] ends: by [break], by reaching the
    next pass, by [EOFError] out of [input] (which ends the process), or
    short of an answer the script of the LLM does not hold.  The last
    two keep the commands handed to the shell up to that point. *)
Inductive ending :=
| Quit (s : session)
| Next (s : session)
| Died (log : list str)
| Stalled (log : list str).

Definition quit_words : list str := [py "exit"; py "quit"].

Section WithShell.

Variable sh : list str -> str -> Shell.run_outcome.

(** The shell log once line 251 has run in [w]: that first execution
    never raises, and every [input] of the execution step comes after
    it. *)
Definition log_after_first_run (final_command : str) (w : Shell.world)
  : list str :=
  match Shell.execute_command sh final_command w with
  | Some (_, w1) => Shell.executed w1
  | None => Shell.executed w
  end.

(** Lines 174-282: one pass of the [while True]. *)
Definition main_pass (family : str) (s : session) : ending :=
  match keyboard s with
  | [] => Died (shell_log s)
  | first :: lines =>
      let user_instruction := strip first in
      if member (lower user_instruction) quit_words then
        Quit {| answers := answers s; keyboard := lines;
                shell_log := shell_log s;
                transcript := transcript s ++ [FromMain Exiting] |}
      else
        let c := request_loop family user_instruction (answers s) lines in
        let said := transcript s ++ map FromController (trace c) in
        match st c with
        | Running | Waiting => Stalled (shell_log s)
        | Crashed => Died (shell_log s)
        | Stopped =>
            match final_command (now c) with
            | None | Some [] =>
                Next {| answers := llm c; keyboard := tty c;
                        shell_log := shell_log s;
                        transcript := said ++ [FromMain NoValidCommand] |}
            | Some final_command =>
                let said := said ++ [FromMain (Suggested final_command)] in
                match tty c with
                | [] => Died (shell_log s)
                | line :: lines' =>
                    let confirm := lower (strip line) in
                    if negb (member confirm Shell.affirmative) then
                      Next {| answers := llm c; keyboard := lines';
                              shell_log := shell_log s;
                              transcript := said ++ [FromMain Skipped] |}
                    else
                      let w0 := {| Shell.stdin := lines';
                                   Shell.executed := shell_log s;
                                   Shell.printed := [] |} in
                      match Shell.execute_and_recover sh final_command w0
                      with
                      | None => Died (log_after_first_run final_command w0)
                      | Some (_, w) =>
                          Next {| answers := llm c;
                                  keyboard := Shell.stdin w;
                                  shell_log := Shell.executed w;
                                  transcript :=
                                    said ++ map FromShell (Shell.printed w) |}
                      end
                end
            end
        end
  end.

(** The [while True], for at most [passes] passes. *)
Fixpoint main_loop (family : str) (passes : nat) (s : session) : ending :=
  match passes with
  | 0 => Next s
  | S passes' =>
      match main_pass family s with
      | Next s' => main_loop family passes' s'
      | other => other
      end
  end.

End WithShell.

(** The session as [main] enters its loop, with nothing run yet; the
    two banner lines printed before the loop are left out of the
    transcript. *)
Definition fresh (llm_answers : list (option str)) (lines : list str)
  : session :=
  {| answers := llm_answers; keyboard := lines; shell_log := [];
     transcript := [] |}.

(** The commands handed to the shell by the time a session is where
    [e] says. *)
Definition log_of (e : ending) : list str :=
  match e with
  | Quit s | Next s => shell_log s
  | Died log | Stalled log => log
  end.

(** The commands the session may hand to the shell for an approved
    command [cmd]: the command itself, the command behind "sudo ", and
    the creation of the docker group. *)
Definition derived_from (cmd command : str) : Prop :=
  command = cmd \/ command = py "sudo " ++ cmd
  \/ command = py "sudo groupadd docker".

Definition permitted (family : str) (llm_answers : list (option str))
    (command : str) : Prop :=
  exists cmd, approved family llm_answers cmd /\ derived_from cmd command.

(** [log] extends the shell log of [s] by commands that are permitted
    for the answers [s] still has to come. *)
Definition log_grows (family : str) (s : session) (log : list str) : Prop :=
  exists new,
    log = shell_log s ++ new
    /\ forall command, In command new ->
         permitted family (answers s) command.

(** What a pass that does not end the process leaves behind. *)
Definition advances (family : str) (s s' : session) : Prop :=
  incl (answers s') (answers s)
  /\ List.length (keyboard s') < List.length (keyboard s)
  /\ exists new,
       shell_log s' = shell_log s ++ new
       /\ List.length new <= 3
       /\ forall command, In command new ->
            permitted family (answers s) command.

End Main.

(* ================================================================== *)
(** * Properties *)

(* ------------------------------------------------------------------ *)
(** ** Facts about the string operations *)

Module PyStrFacts.

Lemma ascii_eqb_eq (a b : ascii) : ascii_eqb a b = true <-> a = b.
Proof. apply Ascii.eqb_eq. Qed.

Lemma ascii_eqb_neq (a b : ascii) : ascii_eqb a b = false <-> a <> b.
Proof. apply Ascii.eqb_neq. Qed.

Lemma str_eqb_eq (a b : str) : str_eqb a b = true <-> a = b.
Proof.
  revert b; induction a as [|x a IH]; intros [|y b]; simpl;
    try (split; [discriminate | congruence]); try tauto.
  rewrite andb_true_iff, ascii_eqb_eq, IH.
  split; [intros [-> ->]; reflexivity | intros H; inversion H; auto].
Qed.

Lemma str_eqb_refl (a : str) : str_eqb a a = true.
Proof. apply str_eqb_eq; reflexivity. Qed.

Lemma startswith_spec (s p : str) :
  startswith s p = true <-> exists post, s = p ++ post.
Proof.
  revert s; induction p as [|x p IH]; intros s.
  - split; [intros _; exists s; reflexivity | intros _; destruct s; reflexivity].
  - destruct s as [|y s]; cbn [startswith].
    + split; [discriminate | intros [post H]; discriminate].
    + rewrite andb_true_iff, ascii_eqb_eq, IH. split.
      * intros [-> [post ->]]. exists post. reflexivity.
      * intros [post H]. inversion H; subst. split; eauto.
Qed.

Lemma contains_spec (sub s : str) :
  contains sub s = true <-> occurs_in sub s.
Proof.
  unfold occurs_in. induction s as [|c s IH].
  - cbn [contains]. rewrite orb_false_r, startswith_spec. split.
    + intros [post H]. exists [], post. exact H.
    + intros [pre [post H]]. destruct pre as [|x pre]; [|discriminate].
      exists post. exact H.
  - cbn [contains]. rewrite orb_true_iff, startswith_spec, IH. split.
    + intros [[post H] | [pre [post H]]].
      * exists [], post. exact H.
      * exists (c :: pre), post. simpl. congruence.
    + intros [[|x pre] [post H]].
      * left. exists post. exact H.
      * right. inversion H; subst. exists pre, post. reflexivity.
Qed.


Lemma member_spec (s : str) (l : list str) : member s l = true <-> In s l.
Proof.
  unfold member. rewrite existsb_exists. split.
  - intros [x [Hin Heq]]. apply str_eqb_eq in Heq. subst. exact Hin.
  - intros Hin. exists s. split; [exact Hin | apply str_eqb_refl].
Qed.

Lemma dict_get_In {A} (key : str) (d : list (str * A)) (v : A) :
  dict_get key d = Some v -> In (key, v) d.
Proof.
  induction d as [|[k w] d IH]; simpl; [discriminate|].
  destruct (str_eqb key k) eqn:E.
  - apply str_eqb_eq in E. intros H. inversion H; subst. left; reflexivity.
  - intros H. right. exact (IH H).
Qed.

Lemma dict_get_None {A} (key : str) (d : list (str * A)) :
  dict_get key d = None -> forall v, ~ In (key, v) d.
Proof.
  induction d as [|[k w] d IH]; simpl; [tauto|].
  destruct (str_eqb key k) eqn:E; [discriminate|].
  intros H v [Heq | Hin].
  - inversion Heq; subst. rewrite str_eqb_refl in E. discriminate.
  - exact (IH H v Hin).
Qed.

(** *** Stripping *)

Lemma lstrip_head (s : str) c t : lstrip s = c :: t -> isspace c = false.
Proof.
  induction s as [|x s IH]; simpl; [discriminate|].
  destruct (isspace x) eqn:E; [exact IH|].
  intros H. inversion H; subst. exact E.
Qed.

Lemma lstrip_suffix (s : str) : exists pre, s = pre ++ lstrip s.
Proof.
  induction s as [|x s [pre IH]]; simpl.
  - exists []. reflexivity.
  - destruct (isspace x).
    + exists (x :: pre). simpl. congruence.
    + exists []. reflexivity.
Qed.

Lemma lstrip_fixed (s : str) :
  (forall c t, s = c :: t -> isspace c = false) -> lstrip s = s.
Proof.
  destruct s as [|x s]; simpl; [reflexivity|].
  intros H. rewrite (H x s eq_refl). reflexivity.
Qed.


Lemma rstrip_prefix (s : str) : exists post, s = rstrip s ++ post.
Proof.
  unfold rstrip. destruct (lstrip_suffix (rev s)) as [pre H].
  exists (rev pre). rewrite <- rev_app_distr, <- H, rev_involutive.
  reflexivity.
Qed.

Lemma rstrip_last (s : str) c t : rstrip s = t ++ [c] -> isspace c = false.
Proof.
  unfold rstrip. intros H.
  apply (f_equal (@rev ascii)) in H.
  rewrite rev_involutive, rev_app_distr in H. simpl in H.
  exact (lstrip_head _ _ _ H).
Qed.


Lemma rstrip_head (s : str) c t :
  (forall c' t', s = c' :: t' -> isspace c' = false) ->
  rstrip s = c :: t -> isspace c = false.
Proof.
  intros Hs H. destruct (rstrip_prefix s) as [post Hp].
  rewrite H in Hp. simpl in Hp. exact (Hs _ _ Hp).
Qed.

Lemma strip_trimmed (s : str) : trimmed (strip s).
Proof.
  unfold strip. split.
  - intros c t H. apply (rstrip_head (lstrip s) c t); [|exact H].
    intros c' t' H'. exact (lstrip_head _ _ _ H').
  - intros c t H. exact (rstrip_last _ _ _ H).
Qed.

Lemma rstrip_fixed (s : str) :
  (forall c t, s = t ++ [c] -> isspace c = false) -> rstrip s = s.
Proof.
  intros H. unfold rstrip. rewrite lstrip_fixed.
  - apply rev_involutive.
  - intros c t Hr. apply (H c (rev t)).
    rewrite <- (rev_involutive s), Hr. reflexivity.
Qed.

Lemma strip_fixed (s : str) : trimmed s -> strip s = s.
Proof.
  intros [Hh Hl]. unfold strip.
  rewrite (lstrip_fixed s Hh). apply rstrip_fixed. exact Hl.
Qed.

Lemma strip_idempotent (s : str) : strip (strip s) = strip s.
Proof. apply strip_fixed, strip_trimmed. Qed.


Lemma truthy_nonempty (s : str) : truthy s = true <-> s <> [].
Proof. destruct s; simpl; split; congruence. Qed.

End PyStrFacts.

(* ------------------------------------------------------------------ *)
(** ** The distro policy filter *)

Module DistroFacts.

Import Distro PyStrFacts.

Lemma any_keyword_in_spec (keywords : list str) (cmd : str) :
  any_keyword_in keywords (lower cmd) = true <-> mentions keywords cmd.
Proof.
  unfold any_keyword_in, mentions. rewrite existsb_exists.
  split; intros [k [Hin H]]; exists k; split; auto;
    apply contains_spec; exact H.
Qed.

Lemma any_keyword_in_false (keywords : list str) (cmd : str) :
  any_keyword_in keywords (lower cmd) = false <-> ~ mentions keywords cmd.
Proof.
  rewrite <- any_keyword_in_spec.
  destruct (any_keyword_in keywords (lower cmd)); split;
    congruence || (intros H; exfalso; apply H; reflexivity) || auto.
Qed.

(** The keys of [expected_pm] are pairwise distinct, so membership of an
    item and lookup of its key agree. *)
Lemma expected_pm_lookup (family : str) (expected : list str) :
  In (family, expected) expected_pm <->
  dict_get family expected_pm = Some expected.
Proof.
  split.
  - intros [H | [H | [H | []]]]; inversion H; subst; reflexivity.
  - apply dict_get_In.
Qed.

(** C5.  [is_command_for_distro] by cases.  When the lowercased command
    contains none of apt, apt-get, dpkg, pacman, dnf, yum the answer is
    true.  When it contains one and the family is a key of [expected_pm]
    (the three recognised families), the answer is true exactly when the
    lowercased command contains one of that family's expected keywords.
    For a family that is not a key the answer is true.  In particular
    "pacman -S foo" is refused for the Debian family and accepted for
    every unrecognised family. *)
Theorem is_command_for_distro_cases (cmd family : str) :
  (~ mentions pm_keywords cmd -> is_command_for_distro cmd family = true)
  /\ (forall expected,
        mentions pm_keywords cmd ->
        In (family, expected) expected_pm ->
        (is_command_for_distro cmd family = true <-> mentions expected cmd))
  /\ ((forall expected, ~ In (family, expected) expected_pm) ->
      is_command_for_distro cmd family = true)
  /\ is_command_for_distro (py "pacman -S foo") (py "Ubuntu/Debian-based")
     = false
  /\ (forall other,
        (forall expected, ~ In (other, expected) expected_pm) ->
        is_command_for_distro (py "pacman -S foo") other = true).
Proof.
  assert (Hother : forall c f,
             (forall expected, ~ In (f, expected) expected_pm) ->
             is_command_for_distro c f = true).
  { intros c f Hno. unfold is_command_for_distro.
    destruct (any_keyword_in pm_keywords (lower c)); [|reflexivity].
    destruct (dict_get f expected_pm) as [expected|] eqn:E; [|reflexivity].
    exfalso. apply (Hno expected). apply expected_pm_lookup. exact E. }
  split; [|split; [|split; [|split]]].
  - intros Hnone. apply any_keyword_in_false in Hnone.
    unfold is_command_for_distro. rewrite Hnone. reflexivity.
  - intros expected Hpm Hfam. unfold is_command_for_distro.
    apply any_keyword_in_spec in Hpm. rewrite Hpm.
    apply expected_pm_lookup in Hfam. rewrite Hfam.
    rewrite <- any_keyword_in_spec.
    destruct (any_keyword_in expected (lower cmd)); split; congruence.
  - apply Hother.
  - reflexivity.
  - intros other. apply Hother.
Qed.

(** A command naming the family's own package manager passes. *)
Lemma is_command_for_distro_cases_witness :
  is_command_for_distro (py "sudo apt install htop")
                        (py "Ubuntu/Debian-based") = true
  /\ is_command_for_distro (py "ls -la") (py "Arch-based") = true
  /\ is_command_for_distro (py "pacman -S foo") (py "gentoo") = true.
Proof.
  pose (debian := [py "apt"; py "apt-get"; py "dpkg"]).
  assert (Hapt : forall kw, In (py "apt") kw ->
            mentions kw (py "sudo apt install htop")).
  { intros kw Hin. exists (py "apt"). split; [exact Hin|].
    exists (py "sudo "), (py " install htop"). reflexivity. }
  split; [|split].
  - apply (proj1 (proj2 (is_command_for_distro_cases
                           (py "sudo apt install htop")
                           (py "Ubuntu/Debian-based"))) debian).
    + apply Hapt. left. reflexivity.
    + left. reflexivity.
    + apply Hapt. left. reflexivity.
  - apply (proj1 (is_command_for_distro_cases (py "ls -la")
                                                (py "Arch-based"))).
    intros H. apply any_keyword_in_spec in H. vm_compute in H.
    discriminate H.
  - apply (proj1 (proj2 (proj2 (is_command_for_distro_cases
                                  (py "pacman -S foo") (py "gentoo"))))).
    intros expected [H | [H | [H | []]]]; vm_compute in H; discriminate H.
Defined.

End DistroFacts.

(* ------------------------------------------------------------------ *)
(** ** The validity heuristics *)

Module ValidFacts.

Import Valid PyStrFacts.




(** A valid command is, in particular, not empty. *)
Lemma is_valid_command_truthy (cmd : str) :
  is_valid_command cmd = true -> truthy cmd = true.
Proof.
  unfold is_valid_command.
  destruct (truthy (strip cmd)) eqn:E; simpl; [|discriminate].
  intros _. destruct cmd; [discriminate E | reflexivity].
Qed.

End ValidFacts.

(* ------------------------------------------------------------------ *)
(** ** Extraction *)

Module ExtractFacts.

Import Extract PyStrFacts.

Lemma span_no_tick_spec (s body rest : str) :
  span_no_tick s = (body, rest) ->
  s = body ++ rest /\ ~ In backtick body
  /\ (rest = [] \/ exists rest', rest = backtick :: rest').
Proof.
  revert body rest. induction s as [|c s IH]; intros body rest; simpl.
  - intros H. inversion H; subst. simpl. tauto.
  - destruct (ascii_eqb c backtick) eqn:E.
    + apply ascii_eqb_eq in E. subst c. intros H. inversion H; subst.
      simpl. split; [reflexivity|]. split; [tauto|]. right. eauto.
    + apply ascii_eqb_neq in E.
      destruct (span_no_tick s) as [b r] eqn:Es. intros H.
      inversion H; subst. destruct (IH b rest eq_refl) as [Hs [Hb Hr]].
      split; [simpl; congruence|]. split; [|exact Hr].
      intros [Hc | Hin]; [congruence | exact (Hb Hin)].
Qed.

Lemma span_no_tick_app (body post : str) :
  ~ In backtick body ->
  span_no_tick (body ++ backtick :: post) = (body, backtick :: post).
Proof.
  induction body as [|c body IH]; intros Hno; simpl.
  - reflexivity.
  - destruct (ascii_eqb c backtick) eqn:E.
    + apply ascii_eqb_eq in E. exfalso. apply Hno. left. exact E.
    + rewrite IH; [reflexivity|]. intros Hin. apply Hno. right. exact Hin.
Qed.

Lemma match_single_at_complete (body post : str) :
  body <> [] -> ~ In backtick body ->
  match_single_at (backtick :: body ++ backtick :: post) = Some body.
Proof.
  intros Hne Hno. unfold match_single_at.
  change (ascii_eqb backtick backtick) with true. cbv iota.
  rewrite (span_no_tick_app body post Hno).
  destruct body; [contradiction | reflexivity].
Qed.

Lemma match_single_at_sound (s g : str) :
  match_single_at s = Some g -> exists post, is_span s [] g post.
Proof.
  unfold match_single_at. destruct s as [|c s]; [discriminate|].
  destruct (ascii_eqb c backtick) eqn:E; [|discriminate].
  apply ascii_eqb_eq in E. subst c.
  destruct (span_no_tick s) as [body rest] eqn:Es.
  destruct (span_no_tick_spec s body rest Es) as [Hs [Hno Hrest]].
  destruct body as [|x body]; [discriminate|].
  destruct rest as [|t rest]; [discriminate|].
  intros H. inversion H; subst g. clear H.
  destruct Hrest as [Hr | [rest' Hr]]; [discriminate|].
  inversion Hr; subst t rest'. exists rest.
  split; [simpl; rewrite Hs; reflexivity|]. split; [discriminate | exact Hno].
Qed.

(** [search_single] skips the positions at which the pattern fails. *)
Lemma search_single_skip (pre t : str) :
  (forall p1 p2, pre = p1 ++ p2 -> p2 <> [] ->
                 match_single_at (p2 ++ t) = None) ->
  search_single (pre ++ t) = search_single t.
Proof.
  induction pre as [|c pre IH]; intros Hnone; [reflexivity|].
  pose proof (Hnone [] (c :: pre) eq_refl ltac:(discriminate)) as Hhere.
  cbn [app] in *. cbn [search_single]. rewrite Hhere.
  apply IH. intros p1 p2 Hp Hne.
  apply (Hnone (c :: p1) p2); [simpl; congruence | exact Hne].
Qed.

Lemma search_single_here (s g : str) :
  match_single_at s = Some g -> search_single s = Some g.
Proof. intros H. destruct s; simpl; simpl in H; rewrite H; reflexivity. Qed.

Lemma search_single_first (s pre body post : str) :
  first_span s pre body post -> search_single s = Some body.
Proof.
  intros [[Hs [Hne Hno]] Hmin]. subst s.
  rewrite search_single_skip.
  - apply search_single_here, match_single_at_complete; assumption.
  - intros p1 p2 Hp Hp2.
    destruct (match_single_at (p2 ++ backtick :: body ++ backtick :: post))
      as [g|] eqn:E; [|reflexivity].
    exfalso. destruct (match_single_at_sound _ _ E) as [post' [H' [Hg Hgn]]].
    assert (Hspan : is_span (pre ++ backtick :: body ++ backtick :: post)
                            p1 g post').
    { split; [|split; assumption].
      subst pre. rewrite <- app_assoc. f_equal. exact H'. }
    apply Hmin in Hspan. subst pre. rewrite length_app in Hspan.
    destruct p2; [contradiction | simpl in Hspan; lia].
Qed.

Lemma search_single_no_tick (pre t : str) :
  ~ In backtick pre -> search_single (pre ++ t) = search_single t.
Proof.
  intros Hno. apply search_single_skip. intros p1 p2 Hp Hne.
  destruct p2 as [|c p2]; [contradiction|]. simpl.
  destruct (ascii_eqb c backtick) eqn:E; [|reflexivity].
  apply ascii_eqb_eq in E. exfalso. apply Hno. subst.
  apply in_or_app. right. left. reflexivity.
Qed.

(** C9.  [extract_command] returns the whitespace-trimmed interior of
    the leftmost span that stands between two backticks, is not empty
    and holds no backtick; the interior may hold any other character,
    newlines included.  Hence a response whose first backticks are a
    triple-backtick block with a non-empty, backtick-free body yields
    that body, trimmed, by the single-backtick rule.  Every returned
    string is free of leading and trailing whitespace. *)
Theorem extract_command_first_span (s : str) :
  (forall pre body post,
     first_span s pre body post -> extract_command s = strip body)
  /\ (forall pre body post,
        ~ In backtick pre -> body <> [] -> ~ In backtick body ->
        s = pre ++ fence ++ body ++ fence ++ post ->
        search_single s = Some body /\ extract_command s = strip body)
  /\ trimmed (extract_command s).
Proof.
  split; [|split].
  - intros pre body post H. unfold extract_command.
    rewrite (search_single_first s pre body post H). reflexivity.
  - intros pre body post Hpre Hne Hno ->.
    assert (H : search_single (pre ++ fence ++ body ++ fence ++ post)
                = Some body).
    { rewrite (search_single_no_tick pre _ Hpre).
      unfold fence at 1. cbn [app].
      assert (Hskip : forall t, search_single (backtick :: backtick :: t)
                                = search_single (backtick :: t)).
      { intros t. reflexivity. }
      rewrite !Hskip.
      apply search_single_here.
      unfold fence. cbn [app].
      apply match_single_at_complete; assumption. }
    split; [exact H|]. unfold extract_command. rewrite H. reflexivity.
  - unfold extract_command.
    destruct (search_single s) as [g|]; [apply strip_trimmed|].
    destruct (search_triple s) as [g|]; [apply strip_trimmed|].
    split; intros c t H; [discriminate|].
    destruct t; discriminate.
Qed.

(** A fenced block that spans several lines. *)
Lemma extract_command_first_span_witness :
  extract_command (py "Try: ```" ++ [newline] ++ py " ls -la" ++ [newline]
                   ++ py "```") = py "ls -la"
  /\ extract_command (py "Use ` ls ` or `pwd`.") = py "ls".
Proof.
  split.
  - apply (proj1 (proj2 (extract_command_first_span _))
             (py "Try: ") ([newline] ++ py " ls -la" ++ [newline]) []).
    + vm_compute. intros [H | [H | [H | [H | [H | []]]]]]; discriminate H.
    + discriminate.
    + vm_compute. intuition discriminate.
    + reflexivity.
  - apply (proj1 (extract_command_first_span _)
             (py "Use ") (py " ls ") (py " or `pwd`.")).
    split.
    + split; [reflexivity|]. split; [discriminate|].
      vm_compute. intuition discriminate.
    + intros pre' body' post' [Hs _].
      destruct pre' as [|a [|b [|c [|d pre']]]];
        try (simpl; lia); vm_compute in Hs; discriminate Hs.
Defined.

End ExtractFacts.

(* ------------------------------------------------------------------ *)
(** ** The stream consumer *)

Module OllamaFacts.

Import Ollama PyStrFacts.

Lemma iter_lines_skip (l1 l2 : list stream_line) (line : stream_line)
    (parts : list json) :
  (line = Blank \/ exists text, line = Malformed text) ->
  iter_lines (l1 ++ line :: l2) parts = iter_lines (l1 ++ l2) parts.
Proof.
  intros Hline. revert parts.
  induction l1 as [|[| text | data | text] l1 IH]; intros parts; simpl.
  - destruct Hline as [-> | [text ->]]; reflexivity.
  - apply IH.
  - apply IH.
  - destruct (get data (py "response") (JStr [])); [|reflexivity].
    destruct (get data (py "done") (JBool false)) as [done|]; [|reflexivity].
    destruct (json_truthy done); [reflexivity | apply IH].
  - reflexivity.
Qed.

Lemma is_done_get (data : json) :
  is_done data = true ->
  exists part done,
    get data (py "response") (JStr []) = Some part
    /\ get data (py "done") (JBool false) = Some done
    /\ json_truthy done = true.
Proof.
  destruct data as [| b | z | s | elements | items]; simpl; try discriminate.
  intros H. eexists. eexists. split; [reflexivity|]. split; [reflexivity|].
  destruct (dict_get (py "done") items); [exact H | discriminate H].
Qed.

Lemma iter_lines_done (l1 l2 : list stream_line) (data : json)
    (parts : list json) :
  is_done data = true ->
  iter_lines (l1 ++ Fragment data :: l2) parts
  = iter_lines (l1 ++ [Fragment data]) parts.
Proof.
  intros Hdone. revert parts.
  induction l1 as [|[| text | d | text] l1 IH]; intros parts; simpl.
  - destruct (is_done_get data Hdone) as [part [done [-> [-> ->]]]].
    reflexivity.
  - apply IH.
  - apply IH.
  - destruct (get d (py "response") (JStr [])); [|reflexivity].
    destruct (get d (py "done") (JBool false)) as [done|]; [|reflexivity].
    destruct (json_truthy done); [reflexivity | apply IH].
  - reflexivity.
Qed.

Lemma join_strings (texts : list str) :
  join (map JStr texts) = Some (List.concat texts).
Proof.
  induction texts as [|t texts IH]; simpl; [reflexivity|].
  rewrite IH. reflexivity.
Qed.

Lemma iter_lines_accumulates (lines : list stream_line) (texts : list str) :
  forallb well_formed lines = true ->
  iter_lines lines (map JStr texts)
  = Some (map JStr (texts ++ accumulated lines)).
Proof.
  revert texts.
  induction lines as [|[| text | data | text] lines IH]; intros texts Hwf;
    [ | | | | discriminate Hwf].
  - simpl. rewrite app_nil_r. reflexivity.
  - apply IH. exact Hwf.
  - apply IH. exact Hwf.
  - cbn [forallb] in Hwf. apply andb_true_iff in Hwf. destruct Hwf as [Hd Hwf].
    destruct data as [| b | z | s | elements | items]; try discriminate Hd.
    cbn [iter_lines get accumulated response_text is_done well_formed] in *.
    assert (Hstep : forall text, map JStr texts ++ [JStr text]
                                 = map JStr (texts ++ [text])).
    { intros text. rewrite map_app. reflexivity. }
    destruct (dict_get (py "response") items) as [[| b | z | s | e | o]|];
      try discriminate Hd;
      rewrite Hstep;
      (destruct (dict_get (py "done") items) as [done|]; cbn [json_truthy];
       [destruct (json_truthy done)|]);
      try reflexivity;
      try (rewrite map_app; reflexivity);
      rewrite (IH _ Hwf), <- app_assoc; reflexivity.
Qed.

(** A line on which [json.loads] raises something else than
    [JSONDecodeError] is not skipped: once it is reached the answer is
    lost, whatever was accumulated and whatever follows. *)
Lemma query_ollama_raising (l1 l2 : list stream_line) (text : str) :
  forallb well_formed l1 = true ->
  (forall d, In (Fragment d) l1 -> is_done d = false) ->
  query_ollama (Some (l1 ++ Raising text :: l2)) = None.
Proof.
  intros Hwf Hnd. unfold query_ollama, consume.
  assert (H : forall parts,
             iter_lines (l1 ++ Raising text :: l2) parts = None).
  { induction l1 as [|[| t | data | t] l1 IH]; intros parts;
      cbn [app iter_lines]; try reflexivity.
    - apply IH; [exact Hwf|]. intros d Hin. apply Hnd. right. exact Hin.
    - apply IH; [exact Hwf|]. intros d Hin. apply Hnd. right. exact Hin.
    - cbn [forallb] in Hwf. apply andb_true_iff in Hwf.
      destruct Hwf as [Hd Hwf].
      pose proof (Hnd data (or_introl eq_refl)) as Hdone.
      destruct data as [| b | z | s | elements | items];
        try discriminate Hd.
      cbn [get is_done] in *.
      assert (Hf : json_truthy match dict_get (py "done") items with
                               | Some v => v
                               | None => JBool false
                               end = false).
      { destruct (dict_get (py "done") items); [exact Hdone | reflexivity]. }
      rewrite Hf. apply IH; [exact Hwf|].
      intros d Hin. apply Hnd. right. exact Hin. }
  rewrite H. reflexivity.
Qed.

(** C8, as stated, fails: the joined text is stripped before it is
    returned.  A single fragment " hi " comes back as "hi". *)
Lemma query_ollama_strips :
  let lines := [Fragment (JObj [(py "response", JStr (py " hi "))])] in
  accumulated lines = [py " hi "]
  /\ query_ollama (Some lines) = Some (py "hi")
  /\ query_ollama (Some lines) <> Some (List.concat (accumulated lines)).
Proof.
  cbv zeta. split; [reflexivity|]. split; [reflexivity|].
  vm_compute. discriminate.
Qed.

(** C8, amended.  On every finite sequence of stream lines
    [query_ollama] skips a line on which decoding raises
    [JSONDecodeError] and goes on with the lines after it; it stops at
    the first decoded line whose [done] is set; and, when no line makes
    [json.loads] raise another exception and every decoded line is an
    object whose [response] is absent or a string, it returns the
    concatenation of the accumulated fragments with leading and trailing
    whitespace removed. *)
Theorem query_ollama_stream (lines : list stream_line) :
  (forall l1 text l2,
     lines = l1 ++ Malformed text :: l2 ->
     query_ollama (Some lines) = query_ollama (Some (l1 ++ l2)))
  /\ (forall l1 data l2,
        lines = l1 ++ Fragment data :: l2 -> is_done data = true ->
        query_ollama (Some lines)
        = query_ollama (Some (l1 ++ [Fragment data])))
  /\ (forallb well_formed lines = true ->
      query_ollama (Some lines) = Some (strip (List.concat (accumulated lines)))).
Proof.
  split; [|split].
  - intros l1 text l2 ->. unfold query_ollama, consume.
    rewrite (iter_lines_skip l1 l2 (Malformed text) []); [reflexivity|].
    right. exists text. reflexivity.
  - intros l1 data l2 -> Hdone. unfold query_ollama, consume.
    rewrite (iter_lines_done l1 l2 data [] Hdone). reflexivity.
  - intros Hwf. unfold query_ollama, consume.
    pose proof (iter_lines_accumulates lines [] Hwf) as Hparts.
    cbn [map app] in Hparts. rewrite Hparts, join_strings. reflexivity.
Qed.

(** A stream with a garbled line in the middle and text after [done]. *)
Lemma query_ollama_stream_witness :
  let a := Fragment (JObj [(py "response", JStr (py " `ls"))]) in
  let b := Fragment (JObj [(py "response", JStr (py " -la` "));
                           (py "done", JBool true)]) in
  let c := Fragment (JObj [(py "response", JStr (py "ignored"))]) in
  query_ollama (Some [a; Malformed (py "{oops"); b; c])
  = query_ollama (Some [a; b; c])
  /\ query_ollama (Some [a; Malformed (py "{oops"); b; c])
     = query_ollama (Some [a; Malformed (py "{oops"); b])
  /\ query_ollama (Some [a; Malformed (py "{oops"); b; c])
     = Some (py "`ls -la`").
Proof.
  cbv zeta.
  set (a := Fragment (JObj [(py "response", JStr (py " `ls"))])).
  set (b := Fragment (JObj [(py "response", JStr (py " -la` "));
                            (py "done", JBool true)])).
  set (c := Fragment (JObj [(py "response", JStr (py "ignored"))])).
  destruct (query_ollama_stream [a; Malformed (py "{oops"); b; c])
    as [Hskip [Hdone Hall]].
  split; [|split].
  - apply (Hskip [a] (py "{oops") [b; c]). reflexivity.
  - apply (Hdone [a; Malformed (py "{oops")] _ [c]); reflexivity.
  - rewrite Hall; reflexivity.
Defined.

End OllamaFacts.

(* ------------------------------------------------------------------ *)
(** ** Execution and recovery *)

Module ShellFacts.

Import Shell PyStrFacts.

Section WithShell.

Variable sh : list str -> str -> run_outcome.

Lemma execute_command_run (command : str) (w : world) :
  exists err,
    execute_command sh command w
    = Some ((exit_code (sh (executed w) command), None, err),
            {| stdin := stdin w; executed := executed w ++ [command];
               printed := printed w |}).
Proof.
  unfold execute_command, bind, subprocess_run, ret.
  destruct (sh (executed w) command); eexists; reflexivity.
Qed.


(** C7.  Let the first execution of a command that mentions both
    "usermod" and "docker" (in any case) exit nonzero.  If the user
    accepts the creation of the group and "sudo groupadd docker" exits 0,
    the command is run exactly once more, and then only the result is
    printed: no further question is asked and nothing else is run.  If
    the creation fails, or the user declines, the command is not run
    again. *)
Theorem docker_group_recovery (final_command line : str)
    (rest : list str) (w : world) :
  stdin w = line :: rest ->
  exit_code (sh (executed w) final_command) <> 0%Z ->
  occurs_in (py "usermod") (lower final_command) ->
  occurs_in (py "docker") (lower final_command) ->
  let log1 := executed w ++ [final_command] in
  let log2 := log1 ++ [groupadd] in
  exists w',
    ends_in sh final_command w w' /\ stdin w' = rest
    /\ (In (lower (strip line)) affirmative ->
        exit_code (sh log1 groupadd) = 0%Z ->
        executed w' = executed w ++ [final_command; groupadd; final_command]
        /\ exists outcome,
             printed w' = printed w ++ [GroupCreated; outcome]
             /\ (outcome = SucceededAfterGroup
                 \/ outcome
                    = ExitedAfterGroup
                        (exit_code (sh log2 final_command))))
    /\ (In (lower (strip line)) affirmative ->
        exit_code (sh log1 groupadd) <> 0%Z ->
        executed w' = executed w ++ [final_command; groupadd]
        /\ printed w' = printed w ++ [GroupCreationFailed])
    /\ (~ In (lower (strip line)) affirmative ->
        executed w' = executed w ++ [final_command]
        /\ printed w' = printed w ++ [AbortedMissingGroup]).
Proof.
  intros Hin Hrc Hu Hd log1 log2.
  apply contains_spec in Hu. apply contains_spec in Hd.
  apply Z.eqb_neq in Hrc.
  unfold ends_in, execute_and_recover.
  unfold bind at 1.
  destruct (execute_command_run final_command w) as [err1 ->].
  cbv beta iota. rewrite Hrc, Hu, Hd. cbn [negb andb].
  unfold bind at 1, input at 1. cbn [stdin executed printed]. rewrite Hin.
  destruct (member (lower (strip line)) affirmative) eqn:Hyes.
  - apply member_spec in Hyes.
    unfold bind at 1.
    match goal with
    | |- context [execute_command sh (py "sudo groupadd docker") ?w1] =>
        destruct (execute_command_run (py "sudo groupadd docker") w1)
          as [err2 ->]
    end.
    cbn [stdin executed printed]. cbv beta iota. fold log1. fold groupadd.
    destruct (exit_code (sh log1 groupadd) =? 0)%Z eqn:Hg.
    + apply Z.eqb_eq in Hg.
      unfold bind at 1, print at 1. cbn [stdin executed printed].
      unfold bind at 1.
      match goal with
      | |- context [execute_command sh final_command ?w2] =>
          destruct (execute_command_run final_command w2) as [err3 ->]
      end.
      cbn [stdin executed printed]. cbv beta iota. fold log2.
      destruct (exit_code (sh log2 final_command) =? 0)%Z eqn:H3;
        cbn [negb]; unfold print; cbn [stdin executed printed];
        eexists; (split; [reflexivity|]); cbn [stdin executed printed];
        (split; [reflexivity|]);
        (split; [intros _ _ | split; [intros _ Hne; congruence
                                      | intros Hno; contradiction]]);
        (split; [unfold log2, log1; rewrite <- !app_assoc; reflexivity|]);
        eexists; (split; [rewrite <- app_assoc; reflexivity|]); auto.
    + apply Z.eqb_neq in Hg. unfold print. cbn [stdin executed printed].
      eexists. split; [reflexivity|]. cbn [stdin executed printed].
      split; [reflexivity|].
      split; [intros _ H0; contradiction|].
      split; [intros _ _ | intros Hno; contradiction].
      split; [unfold log1; rewrite <- app_assoc; reflexivity | reflexivity].
  - assert (Hno : ~ In (lower (strip line)) affirmative).
    { intros H. apply member_spec in H. congruence. }
    unfold print. cbn [stdin executed printed].
    eexists. split; [reflexivity|]. cbn [stdin executed printed].
    split; [reflexivity|].
    split; [intros H; contradiction|].
    split; [intros H; contradiction|].
    intros _. split; reflexivity.
Qed.

End WithShell.

Lemma docker_group_recovery_witness :
  let cmd := py "sudo usermod -aG docker bob" in
  let w := {| stdin := [py "Y"]; executed := []; printed := [] |} in
  exists w',
    execute_and_recover sample_shell cmd w = Some (tt, w')
    /\ stdin w' = []
    /\ executed w' = [cmd; groupadd; cmd]
    /\ printed w' = [GroupCreated; SucceededAfterGroup].
Proof.
  cbv zeta.
  destruct (docker_group_recovery sample_shell
              (py "sudo usermod -aG docker bob") (py "Y") []
              {| stdin := [py "Y"]; executed := []; printed := [] |})
    as [w' [Hrun [Hin [Hyes _]]]].
  - reflexivity.
  - vm_compute. discriminate.
  - exists (py "sudo "), (py " -ag docker bob"). reflexivity.
  - exists (py "sudo usermod -ag "), (py " bob"). reflexivity.
  - exists w'. split; [exact Hrun|]. split; [exact Hin|].
    destruct Hyes as [Hex [outcome [Hpr Hout]]].
    + vm_compute. tauto.
    + reflexivity.
    + split; [exact Hex|].
      unfold ends_in in Hrun. vm_compute in Hrun.
      inversion Hrun; subst w'. reflexivity.
Defined.

End ShellFacts.

(* ------------------------------------------------------------------ *)
(** ** The conversation controller *)

Module ControllerFacts.

Import Distro Valid Extract Controller PyStrFacts.

(** *** One clarification exchange *)

(** The four ways through [clarify]. *)
Ltac clarify_cases lines :=
  unfold clarify;
  let line := fresh "line" in
  let rest := fresh "rest" in
  destruct lines as [|line rest];
  [| cbv zeta;
     destruct (member (lower (strip line)) cancel_words) eqn:?;
     [| destruct (truthy (strip line)) eqn:?; cbn [negb] ] ];
  cbn [vars how stdin events final_command iteration conversation_history
       set_final append_history incr_iteration].

Lemma clarify_final (label : str) (nag : event) (r : str) (v : locals)
    (lines : list str) (said : list event) (cmd : str) :
  final_command (vars (clarify label nag r v lines said)) = Some cmd ->
  final_command v = Some cmd.
Proof. clarify_cases lines; auto; discriminate. Qed.

(** The counter moves only in the last branch of [clarify], by one, on an
    answer that is not empty once stripped. *)
Lemma clarify_iteration (label : str) (nag : event) (r : str) (v : locals)
    (lines : list str) (said : list event) :
  let p := clarify label nag r v lines said in
  iteration (vars p) = iteration v
  \/ (iteration (vars p) = iteration v + 1
      /\ how p = Continue
      /\ final_command (vars p) = final_command v
      /\ exists line, lines = line :: stdin p /\ strip line <> []).
Proof.
  cbv zeta. clarify_cases lines; auto.
  right. repeat split. eexists. split; [reflexivity|].
  apply truthy_nonempty. assumption.
Qed.

Lemma clarify_continue (label : str) (nag : event) (r : str) (v : locals)
    (lines : list str) (said : list event) :
  let p := clarify label nag r v lines said in
  how p = Continue -> final_command (vars p) = final_command v.
Proof. cbv zeta. clarify_cases lines; auto; discriminate. Qed.

Lemma clarify_events (label : str) (nag : event) (r : str) (v : locals)
    (lines : list str) (said : list event) :
  exists more,
    events (clarify label nag r v lines said)
    = said ++ AskClarification :: more
    /\ forall e, In e more -> e = SayAborted \/ e = nag.
Proof.
  clarify_cases lines.
  - exists []. split; [reflexivity | intros e []].
  - exists [SayAborted]. rewrite <- app_assoc. split; [reflexivity|].
    intros e [H | []]. left. congruence.
  - exists []. split; [reflexivity | intros e []].
  - exists [nag]. rewrite <- app_assoc. split; [reflexivity|].
    intros e [H | []]. right. congruence.
Qed.

(** An empty answer leaves the variables alone and keeps the loop going. *)
Lemma clarify_empty (label : str) (nag : event) (r : str) (v : locals)
    (line : str) (lines : list str) (said : list event) :
  strip line = [] ->
  clarify label nag r v (line :: lines) said
  = {| how := Continue; vars := v; stdin := lines;
       events := said ++ [AskClarification; nag] |}.
Proof.
  intros H. unfold clarify. rewrite H. cbn [lower map truthy negb].
  change (member [] cancel_words) with false. cbv iota.
  rewrite <- app_assoc. reflexivity.
Qed.

(** *** One pass through the loop body *)

(** The branches of [loop_body], with the tests that select them kept
    as hypotheses. *)
Ltac body_cases answer :=
  unfold loop_body;
  let ch := fresh "ch" in
  let r := fresh "r" in
  destruct answer as [[|ch r]|];
  [ | destruct (truthy (extract_command (ch :: r))
               && is_valid_command (extract_command (ch :: r))) eqn:?;
      [ destruct (is_command_for_distro (extract_command (ch :: r)) _) eqn:?;
        cbn [negb]
      | destruct (endswith_char (strip (ch :: r)) qmark) eqn:? ]
    | ];
  cbv beta iota zeta;
  cbn [vars how stdin events final_command iteration conversation_history
       set_final append_history incr_iteration].

Lemma loop_body_final (family : str) (v : locals) (answer : option str)
    (lines : list str) (cmd : str) :
  final_command (vars (loop_body family v answer lines)) = Some cmd ->
  final_command v = Some cmd
  \/ exists llm_response,
       answer = Some llm_response
       /\ cmd = extract_command llm_response
       /\ is_valid_command cmd = true
       /\ is_command_for_distro cmd family = true.
Proof.
  body_cases answer; auto; try discriminate;
    try (intros H; left; exact (clarify_final _ _ _ _ _ _ _ H)).
  intros H. inversion H; subst cmd. right. eexists. split; [reflexivity|].
  split; [reflexivity|].
  match goal with
  | Hv : (_ && _)%bool = true |- _ =>
      apply andb_true_iff in Hv; destruct Hv as [_ Hv]
  end.
  split; assumption.
Qed.

Lemma loop_body_iteration (family : str) (v : locals) (answer : option str)
    (lines : list str) :
  let p := loop_body family v answer lines in
  iteration (vars p) = iteration v
  \/ (iteration (vars p) = iteration v + 1
      /\ how p = Continue
      /\ final_command (vars p) = final_command v
      /\ exists line, lines = line :: stdin p /\ strip line <> []).
Proof.
  cbv zeta. body_cases answer; auto; apply clarify_iteration.
Qed.

Lemma loop_body_continue (family : str) (v : locals) (answer : option str)
    (lines : list str) :
  let p := loop_body family v answer lines in
  how p = Continue -> final_command (vars p) = final_command v.
Proof.
  cbv zeta. body_cases answer; try discriminate; apply clarify_continue.
Qed.

(** *** The loop *)

Lemma loop_iter_idle (family : str) (c : config) :
  st c <> Running -> loop_iter family c = c.
Proof. unfold loop_iter. destruct (st c); congruence. Qed.

Lemma loop_iter_llm (family : str) (c : config) :
  llm (loop_iter family c) = llm c
  \/ exists answer, llm c = answer :: llm (loop_iter family c).
Proof.
  unfold loop_iter. destruct (st c); auto.
  destruct (iteration (now c) <? max_iterations); auto.
  destruct (llm c) as [|answer rest]; auto.
  right. exists answer. reflexivity.
Qed.

Lemma loop_iter_final (family : str) (c : config) (cmd : str) :
  final_command (now (loop_iter family c)) = Some cmd ->
  final_command (now c) = Some cmd \/ approved family (llm c) cmd.
Proof.
  unfold loop_iter. destruct (st c); auto.
  destruct (iteration (now c) <? max_iterations); auto.
  destruct (llm c) as [|answer rest]; auto.
  cbn [now]. intros H. apply loop_body_final in H.
  destruct H as [H | [r [-> [Hc [Hv Hd]]]]]; [left; exact H|].
  right. exists r. split; [left; reflexivity | auto].
Qed.

Lemma run_final (family : str) (n : nat) (c : config) (cmd : str) :
  final_command (now (run family n c)) = Some cmd ->
  final_command (now c) = Some cmd \/ approved family (llm c) cmd.
Proof.
  revert c. induction n as [|n IH]; intros c; cbn [run]; [auto|].
  intros H. destruct (IH _ H) as [H1 | [r [Hin Hrest]]].
  - apply loop_iter_final. exact H1.
  - right. exists r. split; [|exact Hrest].
    destruct (loop_iter_llm family c) as [Heq | [answer Heq]].
    + rewrite <- Heq. exact Hin.
    + rewrite Heq. right. exact Hin.
Qed.

(** C1.  Whatever the instruction, the answers of the LLM and the lines
    typed by the user, and at every point of the request loop, a final
    command that is set is the candidate extracted from one of the
    answers, and both [is_valid_command] and [is_command_for_distro]
    (for the detected family) hold of it. *)
Theorem final_command_approved (family user_instruction : str)
    (answers : list (option str)) (lines : list str) (n : nat) (cmd : str) :
  final_command (now (run family n (start user_instruction answers lines)))
  = Some cmd ->
  approved family answers cmd.
Proof.
  intros H. apply run_final in H. destruct H as [H | H]; [|exact H].
  discriminate H.
Qed.

Lemma final_command_approved_witness :
  approved (py "Ubuntu/Debian-based")
           [Some (py "`sudo pacman -S htop`");
            Some (py "`sudo apt install htop`")]
           (py "sudo apt install htop").
Proof.
  apply (final_command_approved
           (py "Ubuntu/Debian-based") (py "install htop")
           [Some (py "`sudo pacman -S htop`");
            Some (py "`sudo apt install htop`")]
           [py "I am on Ubuntu"] 2).
  reflexivity.
Defined.

(** *** The iteration counter *)

Lemma start_sound (user_instruction : str) (answers : list (option str))
    (lines : list str) :
  sound (start user_instruction answers lines).
Proof.
  split; cbn [start now st iteration final_command]; unfold max_iterations;
    try lia; auto; congruence.
Qed.

Lemma loop_iter_sound (family : str) (c : config) :
  sound c -> sound (loop_iter family c).
Proof.
  intros [Hb Hr Hf Hc]. unfold loop_iter.
  destruct (st c) eqn:Est; try (split; rewrite ?Est; assumption).
  specialize (Hr eq_refl).
  destruct (Nat.ltb_spec (iteration (now c)) max_iterations) as [Hlt | Hge].
  - destruct (llm c) as [|answer rest].
    + split; cbn [now st]; auto; try lia; discriminate.
    + pose proof (loop_body_iteration family (now c) answer (tty c)) as Hit.
      pose proof (loop_body_continue family (now c) answer (tty c)) as Hco.
      cbv zeta in Hit, Hco.
      set (p := loop_body family (now c) answer (tty c)) in *.
      split; cbn [now st].
      * destruct Hit as [-> | [-> _]]; lia.
      * destruct (how p); try discriminate. intros _.
        rewrite (Hco eq_refl). exact Hr.
      * intros Hset.
        destruct Hit as [-> | [_ [_ [Hsame _]]]]; [exact Hlt|].
        rewrite Hsame in Hset. contradiction.
      * intros H5.
        destruct Hit as [Hsame | [_ [-> _]]]; [lia | left; reflexivity].
  - split; cbn [now st]; auto; discriminate.
Qed.

Lemma run_sound (family : str) (n : nat) (c : config) :
  sound c -> sound (run family n c).
Proof.
  revert c. induction n as [|n IH]; intros c Hc; cbn [run]; [exact Hc|].
  apply IH, loop_iter_sound, Hc.
Qed.

Lemma loop_iter_step (family : str) (c : config) :
  let c' := loop_iter family c in
  iteration (now c') = iteration (now c)
  \/ (iteration (now c') = iteration (now c) + 1
      /\ exists line, tty c = line :: tty c' /\ strip line <> []).
Proof.
  cbv zeta. unfold loop_iter. destruct (st c); auto.
  destruct (iteration (now c) <? max_iterations); auto.
  destruct (llm c) as [|answer rest]; auto. cbn [now tty].
  destruct (loop_body_iteration family (now c) answer (tty c))
    as [H | [H [_ [_ Hline]]]]; auto.
Qed.

Lemma loop_iter_ceiling (family : str) (c : config) :
  sound c -> iteration (now c) = max_iterations ->
  let c' := loop_iter family c in
  st c' = Stopped /\ now c' = now c /\ llm c' = llm c /\ tty c' = tty c
  /\ trace c' = trace c /\ final_command (now c') = None.
Proof.
  intros [Hb Hr Hf Hc] H5. cbv zeta.
  assert (Hnone : final_command (now c) = None).
  { destruct (final_command (now c)) eqn:E; [|reflexivity].
    assert (iteration (now c) < max_iterations) by (apply Hf; congruence).
    lia. }
  unfold loop_iter. destruct (Hc H5) as [Est | Est]; rewrite Est.
  - destruct (Nat.ltb_spec (iteration (now c)) max_iterations); [lia|].
    cbn [st now llm tty trace]. auto 10.
  - auto 10.
Qed.

(** C2.  Within one request the counter starts at 0; a pass leaves it
    alone or adds exactly 1, and adds 1 only after reading a clarification
    that is not empty; it never exceeds 5; and once it is 5 the next
    evaluation of the loop test ends the loop without another query
    ([trace] and [llm] unchanged) and with no final command. *)
Theorem iteration_bounded (family user_instruction : str)
    (answers : list (option str)) (lines : list str) (n : nat) :
  let c0 := start user_instruction answers lines in
  let c := run family n c0 in
  let c' := loop_iter family c in
  iteration (now c0) = 0
  /\ iteration (now c) <= 5
  /\ (iteration (now c') = iteration (now c)
      \/ (iteration (now c') = iteration (now c) + 1
          /\ exists line, tty c = line :: tty c' /\ strip line <> []))
  /\ (iteration (now c) = 5 ->
      st c' = Stopped /\ llm_calls c' = llm_calls c /\ llm c' = llm c
      /\ final_command (now c') = None
      /\ forall m, run family m c' = c').
Proof.
  cbv zeta.
  pose proof (run_sound family n _
                (start_sound user_instruction answers lines)) as Hs.
  split; [reflexivity|]. split; [exact (sound_bound _ Hs)|].
  split; [apply loop_iter_step|].
  intros H5.
  destruct (loop_iter_ceiling family _ Hs H5)
    as [Hst [_ [Hllm [_ [Htr Hfin]]]]].
  split; [exact Hst|]. split; [unfold llm_calls; rewrite Htr; reflexivity|].
  split; [exact Hllm|]. split; [exact Hfin|].
  intros m. induction m as [|m IH]; cbn [run]; [reflexivity|].
  rewrite loop_iter_idle; [exact IH | rewrite Hst; discriminate].
Qed.

(** Five questions, five clarifications: the sixth answer is never asked
    for. *)
Lemma iteration_bounded_witness :
  let answers := repeat (Some (py "Which one?")) 6 in
  let lines := repeat (py "the usual one") 6 in
  let c := run (py "Arch-based") 5 (start (py "install it") answers lines) in
  iteration (now c) = 5
  /\ st (loop_iter (py "Arch-based") c) = Stopped
  /\ llm (loop_iter (py "Arch-based") c) = [Some (py "Which one?")]
  /\ final_command (now (loop_iter (py "Arch-based") c)) = None.
Proof.
  cbv zeta.
  destruct (iteration_bounded (py "Arch-based") (py "install it")
              (repeat (Some (py "Which one?")) 6)
              (repeat (py "the usual one") 6) 5)
    as [_ [_ [_ Hend]]].
  split; [reflexivity|].
  destruct Hend as [Hst [_ [Hllm [Hfin _]]]]; [reflexivity|].
  split; [exact Hst|]. split; [rewrite Hllm; reflexivity | exact Hfin].
Defined.

(** *** Termination of the loop *)

Lemma loop_iter_progress (family : str) (c : config) :
  st (loop_iter family c) = Running ->
  exists answer, llm c = answer :: llm (loop_iter family c).
Proof.
  unfold loop_iter. destruct (st c) eqn:Est; try congruence.
  destruct (iteration (now c) <? max_iterations); [|discriminate].
  destruct (llm c) as [|answer rest]; [discriminate|].
  intros _. exists answer. reflexivity.
Qed.

Lemma run_settles (family : str) (n : nat) (c : config) :
  List.length (llm c) < n -> st (run family n c) <> Running.
Proof.
  revert c. induction n as [|n IH]; intros c Hlen; [lia|].
  cbn [run].
  destruct (st (loop_iter family c)) eqn:Est.
  - destruct (loop_iter_progress family c Est) as [answer Hllm].
    apply IH. rewrite Hllm in Hlen. cbn [List.length] in Hlen. lia.
  - assert (Hidle : forall m, run family m (loop_iter family c)
                              = loop_iter family c).
    { induction m as [|m IHm]; cbn [run]; [reflexivity|].
      rewrite loop_iter_idle; [exact IHm | congruence]. }
    rewrite Hidle. congruence.
  - assert (Hidle : forall m, run family m (loop_iter family c)
                              = loop_iter family c).
    { induction m as [|m IHm]; cbn [run]; [reflexivity|].
      rewrite loop_iter_idle; [exact IHm | congruence]. }
    rewrite Hidle. congruence.
  - assert (Hidle : forall m, run family m (loop_iter family c)
                              = loop_iter family c).
    { induction m as [|m IHm]; cbn [run]; [reflexivity|].
      rewrite loop_iter_idle; [exact IHm | congruence]. }
    rewrite Hidle. congruence.
Qed.

(** The request loop always comes to rest: it stops, dies on end of
    input, or waits for an answer the script does not hold. *)
Lemma request_loop_settles (family user_instruction : str)
    (answers : list (option str)) (lines : list str) :
  st (request_loop family user_instruction answers lines) <> Running.
Proof.
  unfold request_loop. apply run_settles. cbn [start llm]. lia.
Qed.

(** *** Classification of a response *)

(** C4.  When the candidate extracted from a response passes
    [is_valid_command], the pass treats the response as a command
    attempt: it accepts the candidate when the policy filter approves, it
    reports a mismatch and asks for a clarification otherwise, and it
    never announces a question of the LLM, whatever the last character of
    the response.  Conversely, a pass that announces a question has seen
    the command test fail. *)
Theorem valid_candidate_is_command_attempt (family : str) (v : locals)
    (llm_response : str) (lines : list str) :
  let candidate := extract_command llm_response in
  let p := loop_body family v (Some llm_response) lines in
  (is_valid_command candidate = true ->
   (forall q, ~ In (SayLLMAsks q) (events p))
   /\ (is_command_for_distro candidate family = true ->
       how p = Break /\ events p = [] /\ stdin p = lines
       /\ final_command (vars p) = Some candidate
       /\ conversation_history (vars p)
          = conversation_history v ++ [py "Assistant: " ++ llm_response])
   /\ (is_command_for_distro candidate family = false ->
       exists more,
         events p = SayMismatch candidate (expected_name family)
                    :: AskClarification :: more))
  /\ (forall q, In (SayLLMAsks q) (events p) ->
      q = llm_response /\ command_attempt llm_response = false
      /\ endswith_char (strip llm_response) qmark = true).
Proof.
  cbv zeta. split.
  - intros Hvalid.
    assert (Hattempt : truthy (extract_command llm_response)
                       && is_valid_command (extract_command llm_response)
                       = true).
    { rewrite (ValidFacts.is_valid_command_truthy _ Hvalid), Hvalid.
      reflexivity. }
    unfold loop_body.
    destruct llm_response as [|ch r]; [discriminate Hvalid|].
    rewrite Hattempt.
    destruct (is_command_for_distro (extract_command (ch :: r)) family)
      eqn:Hd; cbn [negb]; cbv beta iota zeta.
    + cbn [vars how stdin events final_command conversation_history
           set_final append_history].
      split; [intros q []|]. split; [auto 10 | discriminate].
    + destruct (clarify_events (py "Assistant (mismatch): ")
                  SayNoClarificationMismatch (ch :: r) v lines
                  [SayMismatch (extract_command (ch :: r))
                               (expected_name family)])
        as [more [Hev Hmore]].
      rewrite Hev. cbn [app].
      split; [|split; [discriminate | intros _; exists more; reflexivity]].
      intros q [H | [H | H]]; try discriminate H.
      destruct (Hmore _ H); discriminate.
  - intros q. unfold command_attempt. unfold loop_body.
    destruct llm_response as [|ch r];
      [cbn [events In]; intros [H | []]; discriminate H|].
    destruct (truthy (extract_command (ch :: r))
              && is_valid_command (extract_command (ch :: r))).
    + destruct (is_command_for_distro (extract_command (ch :: r)) family);
        cbn [negb]; cbv beta iota zeta; [intros []|].
      destruct (clarify_events (py "Assistant (mismatch): ")
                  SayNoClarificationMismatch (ch :: r) v lines
                  [SayMismatch (extract_command (ch :: r))
                               (expected_name family)])
        as [more [Hev Hmore]].
      rewrite Hev. cbn [app].
      intros [H | [H | H]]; try discriminate H.
      destruct (Hmore _ H); discriminate.
    + destruct (endswith_char (strip (ch :: r)) qmark);
        [|cbn [events In]; intros [H | []]; discriminate H].
      destruct (clarify_events (py "Assistant: ")
                  SayNoClarificationQuestion (ch :: r) v lines
                  [SayLLMAsks (ch :: r)])
        as [more [Hev Hmore]].
      rewrite Hev. cbn [app].
      intros [H | [H | H]]; try discriminate H.
      * inversion H. auto.
      * destruct (Hmore _ H); discriminate.
Qed.

(** A command that ends in a question mark is still a command. *)
Lemma valid_candidate_is_command_attempt_witness :
  let p := loop_body (py "Arch-based")
             {| conversation_history := [py "User: list files"];
                final_command := None; iteration := 0 |}
             (Some (py "Did you mean `ls -la`?")) [] in
  final_command (vars p) = Some (py "ls -la")
  /\ forall q, ~ In (SayLLMAsks q) (events p).
Proof.
  cbv zeta.
  destruct (valid_candidate_is_command_attempt (py "Arch-based")
              {| conversation_history := [py "User: list files"];
                 final_command := None; iteration := 0 |}
              (py "Did you mean `ls -la`?") [])
    as [[Hnever [Haccept _]] _]; [reflexivity|].
  destruct Haccept as [_ [_ [_ [Hfinal _]]]]; [reflexivity|].
  split; [exact Hfinal | exact Hnever].
Defined.

(** *** Empty clarifications *)

Lemma loop_body_empty_clarification (family : str) (v : locals)
    (llm_response line : str) (lines : list str) :
  clarify_mismatch family llm_response \/ clarify_question llm_response ->
  strip line = [] ->
  loop_body family v (Some llm_response) (line :: lines)
  = {| how := Continue; vars := v; stdin := lines;
       events := [shown_for family llm_response; AskClarification;
                  nag_for llm_response] |}.
Proof.
  intros Hstate Hempty. unfold shown_for, nag_for, loop_body.
  destruct llm_response as [|ch r].
  - destruct Hstate as [[H _] | [_ H]]; discriminate H.
  - destruct Hstate as [[Ha Hd] | [Ha Hq]]; rewrite Ha;
      unfold command_attempt in Ha; rewrite Ha.
    + rewrite Hd. cbn [negb]. rewrite clarify_empty by exact Hempty.
      reflexivity.
    + rewrite Hq. rewrite clarify_empty by exact Hempty. reflexivity.
Qed.

(** C3, as stated, fails: after an empty clarification the loop goes
    back to the LLM instead of asking the user again.  Here the LLM first
    asks a question, the user answers with an empty line, and the second
    answer of the LLM is accepted: two queries, one clarification prompt,
    and the request is over. *)
Lemma empty_clarification_queries_again :
  let c0 := start (py "list files")
                  [Some (py "Which directory?"); Some (py "`ls`")]
                  [py ""] in
  let c1 := loop_iter (py "Arch-based") c0 in
  let c2 := loop_iter (py "Arch-based") c1 in
  clarify_question (py "Which directory?")
  /\ (llm_calls c1 = 1 /\ clarification_prompts c1 = 1 /\ st c1 = Running)
  /\ (llm_calls c2 = 2 /\ clarification_prompts c2 = 1 /\ st c2 = Stopped)
  /\ final_command (now c2) = Some (py "ls").
Proof.
  cbv zeta. split; [split; reflexivity|].
  split; [repeat split|]. split; [repeat split|]. reflexivity.
Qed.

(** A pass asks the user for a clarification exactly when the answer of
    the LLM puts it in one of the two clarification states. *)
Lemma loop_body_asks (family : str) (v : locals) (answer : option str)
    (lines : list str) :
  In AskClarification (events (loop_body family v answer lines))
  <-> exists r,
        answer = Some r
        /\ (clarify_mismatch family r \/ clarify_question r).
Proof.
  assert (Hask : forall label nag r said,
             In AskClarification
                (events (clarify label nag r v lines said))).
  { intros label nag r said.
    destruct (clarify_events label nag r v lines said) as [more [-> _]].
    apply in_or_app. right. left. reflexivity. }
  unfold clarify_mismatch, clarify_question, command_attempt. split.
  - unfold loop_body.
    destruct answer as [[|ch r]|];
      [intros [H | []]; discriminate H | | intros [H | []]; discriminate H].
    destruct (truthy (extract_command (ch :: r))
              && is_valid_command (extract_command (ch :: r))) eqn:Ea.
    + destruct (is_command_for_distro (extract_command (ch :: r)) family)
        eqn:Ed; cbn [negb]; cbv beta iota zeta; [intros []|].
      intros _. exists (ch :: r). split; [reflexivity|]. left.
      rewrite Ea, Ed. split; reflexivity.
    + destruct (endswith_char (strip (ch :: r)) qmark) eqn:Eq;
        [|intros [H | []]; discriminate H].
      intros _. exists (ch :: r). split; [reflexivity|]. right.
      rewrite Ea, Eq. split; reflexivity.
  - intros [r [-> Hstate]]. unfold loop_body.
    destruct r as [|ch r].
    + destruct Hstate as [[H _] | [_ H]]; discriminate H.
    + destruct Hstate as [[Ha Hd] | [Ha Hq]]; rewrite Ha.
      * rewrite Hd. apply Hask.
      * rewrite Hq. apply Hask.
Qed.

(** C3, amended.  In both clarification states an empty clarification
    consumes no iteration and leaves the conversation history (indeed all
    the variables of the request) unchanged, and the loop goes on; it
    does so by returning to the LLM: if the LLM answers, the next pass
    starts with a new query carrying the very same prompt and then does
    what a pass from the unchanged variables does with that answer, so
    that the user is asked again exactly when the new answer again leads
    to a clarification state. *)
Theorem empty_clarification_keeps_state (family : str) (c : config)
    (llm_response line : str) (answers : list (option str))
    (lines : list str) :
  st c = Running ->
  iteration (now c) < max_iterations ->
  llm c = Some llm_response :: answers ->
  tty c = line :: lines ->
  clarify_mismatch family llm_response \/ clarify_question llm_response ->
  strip line = [] ->
  let prompt := build_prompt (conversation_history (now c)) family in
  let c' := loop_iter family c in
  st c' = Running /\ now c' = now c /\ llm c' = answers /\ tty c' = lines
  /\ trace c' = trace c ++ [Query prompt; shown_for family llm_response;
                            AskClarification; nag_for llm_response]
  /\ (forall answer rest,
        answers = answer :: rest ->
        let p := loop_body family (now c) answer lines in
        trace (loop_iter family c') = trace c' ++ Query prompt :: events p
        /\ llm_calls (loop_iter family c') = llm_calls c' + 1
        /\ (In AskClarification (events p) <->
            exists r,
              answer = Some r
              /\ (clarify_mismatch family r \/ clarify_question r))).
Proof.
  intros Hst Hit Hllm Htty Hstate Hempty. cbv zeta.
  assert (Hc' : loop_iter family c
                = {| st := Running; now := now c; llm := answers;
                     tty := lines;
                     trace := trace c
                              ++ [Query (build_prompt
                                           (conversation_history (now c))
                                           family);
                                  shown_for family llm_response;
                                  AskClarification; nag_for llm_response] |}).
  { unfold loop_iter. rewrite Hst, Hllm, Htty.
    apply Nat.ltb_lt in Hit. rewrite Hit.
    rewrite (loop_body_empty_clarification family (now c) llm_response
               line lines Hstate Hempty).
    reflexivity. }
  rewrite Hc'. cbn [st now llm tty trace].
  repeat (split; [reflexivity|]).
  intros answer rest ->. unfold loop_iter at 1 2. cbn [st now llm tty trace].
  apply Nat.ltb_lt in Hit. rewrite Hit. cbn [trace].
  split; [reflexivity|].
  split; [|apply loop_body_asks].
  unfold llm_calls. cbn [trace].
  rewrite !filter_app, !length_app. cbn [filter List.length].
  set (k := List.length (filter _ (events _))).
  assert (Hk : k = 0).
  { unfold k. clear.
    set (p := loop_body _ _ _ _).
    assert (Hq : forall e, In e (events p) ->
                           match e with Query _ => false | _ => true end
                           = true).
    { intros e. unfold p, loop_body.
      destruct answer as [[|ch r]|];
        try (intros [<- | []]; reflexivity).
      destruct (truthy (extract_command (ch :: r))
                && is_valid_command (extract_command (ch :: r))).
      - destruct (is_command_for_distro (extract_command (ch :: r)) family);
          cbn [negb]; cbv beta iota zeta; [intros []|].
        destruct (clarify_events (py "Assistant (mismatch): ")
                    SayNoClarificationMismatch (ch :: r) (now c) lines
                    [SayMismatch (extract_command (ch :: r))
                                 (expected_name family)])
          as [more [-> Hmore]].
        cbn [app]. intros [<- | [<- | H]]; try reflexivity.
        destruct (Hmore _ H) as [-> | ->]; reflexivity.
      - destruct (endswith_char (strip (ch :: r)) qmark);
          [|intros [<- | []]; reflexivity].
        destruct (clarify_events (py "Assistant: ")
                    SayNoClarificationQuestion (ch :: r) (now c) lines
                    [SayLLMAsks (ch :: r)])
          as [more [-> Hmore]].
        cbn [app]. intros [<- | [<- | H]]; try reflexivity.
        destruct (Hmore _ H) as [-> | ->]; reflexivity. }
    induction (events p) as [|e es IH]; [reflexivity|].
    cbn [filter]. pose proof (Hq e (or_introl eq_refl)) as He.
    destruct e; try discriminate He;
      apply IH; intros e' He'; apply Hq; right; exact He'. }
  rewrite Hk. lia.
Qed.

Lemma empty_clarification_keeps_state_witness :
  let c := start (py "install htop")
                 [Some (py "`sudo pacman -S htop`");
                  Some (py "`sudo apt install htop`")]
                 [py "  "] in
  let c' := loop_iter (py "Ubuntu/Debian-based") c in
  st c' = Running /\ now c' = now c
  /\ llm_calls c' = 1
  /\ llm_calls (loop_iter (py "Ubuntu/Debian-based") c') = 2.
Proof.
  cbv zeta.
  destruct (empty_clarification_keeps_state (py "Ubuntu/Debian-based")
              (start (py "install htop")
                     [Some (py "`sudo pacman -S htop`");
                      Some (py "`sudo apt install htop`")]
                     [py "  "])
              (py "`sudo pacman -S htop`") (py "  ")
              [Some (py "`sudo apt install htop`")] [])
    as [Hst [Hnow [_ [_ [Htr Hnext]]]]].
  - reflexivity.
  - cbn [start now iteration]. unfold max_iterations. lia.
  - reflexivity.
  - reflexivity.
  - left. split; reflexivity.
  - reflexivity.
  - split; [exact Hst|]. split; [exact Hnow|].
    destruct (Hnext _ _ eq_refl) as [_ [Hcalls _]].
    assert (H1 : llm_calls (loop_iter (py "Ubuntu/Debian-based")
                   (start (py "install htop")
                      [Some (py "`sudo pacman -S htop`");
                       Some (py "`sudo apt install htop`")]
                      [py "  "])) = 1).
    { unfold llm_calls. rewrite Htr. reflexivity. }
    split; [exact H1|]. rewrite Hcalls, H1. reflexivity.
Defined.

(** *** Three runs of the request loop *)

Example accepted_at_once :
  let c := request_loop (py "Ubuntu/Debian-based") (py "install htop")
             [Some (py "`sudo apt install htop`")] [] in
  st c = Stopped
  /\ final_command (now c) = Some (py "sudo apt install htop")
  /\ clarification_prompts c = 0.
Proof. repeat split. Qed.

Example mismatch_then_clarified :
  let c := loop_iter (py "Ubuntu/Debian-based")
             (start (py "install htop")
                    [Some (py "`sudo pacman -S htop`")] [py "use apt"]) in
  st c = Running /\ iteration (now c) = 1
  /\ conversation_history (now c)
     = [py "User: install htop";
        py "Assistant (mismatch): `sudo pacman -S htop`";
        py "User: use apt"].
Proof. repeat split. Qed.

Example question_cancelled :
  let c := request_loop (py "Arch-based") (py "install it")
             [Some (py "Which package do you want?")] [py "Cancel"] in
  st c = Stopped /\ final_command (now c) = None /\ llm_calls c = 1.
Proof. repeat split. Qed.

End ControllerFacts.


(* ------------------------------------------------------------------ *)
(** ** The environment probe *)

Module ProbeFacts.

Import Distro Probe PyStrFacts.

Lemma lower_char_not_upper (c : ascii) : is_upper (lower_char c) = false.
Proof. destruct c as [[] [] [] [] [] [] [] []]; reflexivity. Qed.

Lemma lower_char_idempotent (c : ascii) :
  lower_char (lower_char c) = lower_char c.
Proof. destruct c as [[] [] [] [] [] [] [] []]; reflexivity. Qed.

Lemma lower_idempotent (s : str) : lower (lower s) = lower s.
Proof.
  unfold lower. rewrite map_map. apply map_ext. apply lower_char_idempotent.
Qed.

(** Nothing that comes out of [lower] starts with a capital letter. *)
Lemma lower_head_not_upper (s k : str) (c : ascii) :
  is_upper c = true -> lower s <> c :: k.
Proof.
  intros Hc H. destruct s as [|a s]; [discriminate H|].
  inversion H. rewrite <- H1 in Hc.
  rewrite lower_char_not_upper in Hc. discriminate Hc.
Qed.

(** The keys of [expected_pm] start with a capital letter. *)
Lemma expected_pm_keys_capital (family : str) (expected : list str) :
  In (family, expected) expected_pm ->
  exists c k, family = c :: k /\ is_upper c = true.
Proof.
  intros [H | [H | [H | []]]]; inversion H; subst;
    eexists; eexists; (split; [reflexivity | reflexivity]).
Qed.

Lemma scan_no_id (lines : list str) (last : read_end) (distro : str) :
  (forall line, In line lines -> startswith line (py "ID=") = false) ->
  scan lines last distro
  = match last with EndOfFile => Some distro | ReadRaises => None end.
Proof.
  induction lines as [|l lines IH]; intros H; [reflexivity|].
  cbn [scan]. rewrite (H l (or_introl eq_refl)).
  apply IH. intros line Hin. apply H. right. exact Hin.
Qed.

Lemma scan_first_id (pre post : list str) (last : read_end)
    (line distro : str) :
  (forall l, In l pre -> startswith l (py "ID=") = false) ->
  startswith line (py "ID=") = true ->
  scan (pre ++ line :: post) last distro = distro_of_line line.
Proof.
  intros Hpre Hline. induction pre as [|l pre IH]; cbn [app scan].
  - rewrite Hline. reflexivity.
  - rewrite (Hpre l (or_introl eq_refl)).
    apply IH. intros l' Hin. apply Hpre. right. exact Hin.
Qed.

(** The first field of [split_on] is the text before the first
    separator. *)
Lemma split_on_no_sep (sep : ascii) (s : str) :
  ~ In sep s -> split_on sep s = [s].
Proof.
  induction s as [|c s IH]; intros Hno; [reflexivity|].
  cbn [split_on].
  destruct (ascii_eqb c sep) eqn:E.
  - apply ascii_eqb_eq in E. exfalso. apply Hno. left. exact E.
  - rewrite IH; [reflexivity|]. intros Hin. apply Hno. right. exact Hin.
Qed.

Lemma split_on_app (sep : ascii) (field rest : str) :
  ~ In sep field ->
  split_on sep (field ++ sep :: rest) = field :: split_on sep rest.
Proof.
  induction field as [|c field IH]; intros Hno; cbn [app split_on].
  - unfold ascii_eqb. rewrite Ascii.eqb_refl. reflexivity.
  - destruct (ascii_eqb c sep) eqn:E.
    + apply ascii_eqb_eq in E. exfalso. apply Hno. left. exact E.
    + rewrite IH; [reflexivity|]. intros Hin. apply Hno. right. exact Hin.
Qed.

Lemma split_on_nonempty (sep : ascii) (s : str) : split_on sep s <> [].
Proof.
  destruct s as [|c s]; cbn [split_on]; [discriminate|].
  destruct (ascii_eqb c sep); [discriminate|].
  destruct (split_on sep s); discriminate.
Qed.

Lemma until_sep_spec (sep : ascii) (s : str) :
  let (field, tail) := until_sep sep s in
  ~ In sep field
  /\ match tail with
     | None => s = field
     | Some rest => s = field ++ sep :: rest
     end.
Proof.
  induction s as [|c s IH]; cbn [until_sep].
  - split; [intros [] | reflexivity].
  - destruct (ascii_eqb c sep) eqn:E.
    + apply ascii_eqb_eq in E. subst c. split; [intros [] | reflexivity].
    + apply ascii_eqb_neq in E.
      destruct (until_sep sep s) as [field tail]. destruct IH as [Hno Hs].
      split.
      * intros [H | H]; [congruence | exact (Hno H)].
      * destruct tail; cbn [app]; congruence.
Qed.

Lemma second_field (value tail : str) :
  ~ In equals_sign value ->
  tail = [] \/ (exists rest, tail = equals_sign :: rest) ->
  nth_error (split_on equals_sign (py "ID=" ++ value ++ tail)) 1
  = Some value.
Proof.
  intros Hno Htail.
  change (py "ID=" ++ value ++ tail)
    with (py "ID" ++ equals_sign :: (value ++ tail)).
  rewrite split_on_app
    by (vm_compute; intros [H | [H | []]]; discriminate H).
  cbn [nth_error].
  destruct Htail as [-> | [rest ->]].
  - rewrite app_nil_r, (split_on_no_sep _ _ Hno). reflexivity.
  - rewrite (split_on_app _ _ rest Hno). reflexivity.
Qed.

Lemma distro_of_line_id (rest : str) :
  distro_of_line (py "ID=" ++ rest)
  = Some (lower (strip_chars [dquote]
                   (strip (fst (until_sep equals_sign rest))))).
Proof.
  unfold distro_of_line.
  pose proof (until_sep_spec equals_sign rest) as H.
  destruct (until_sep equals_sign rest) as [field tail].
  destruct H as [Hno Hs]. cbn [fst].
  destruct tail as [more|]; rewrite Hs.
  - rewrite (second_field field (equals_sign :: more) Hno); [reflexivity|].
    right. exists more. reflexivity.
  - pose proof (second_field field [] Hno (or_introl eq_refl)) as H.
    rewrite app_nil_r in H. rewrite H. reflexivity.
Qed.

Lemma scan_lower (lines : list str) (last : read_end) (d0 d : str) :
  scan lines last d0 = Some d -> d = d0 \/ exists x, d = lower x.
Proof.
  induction lines as [|l lines IH]; cbn [scan].
  - destruct last; [|discriminate].
    intros H. inversion H. left. reflexivity.
  - destruct (startswith l (py "ID=")); [|exact IH].
    unfold distro_of_line.
    destruct (nth_error (split_on equals_sign l) 1); [|discriminate].
    intros H. inversion H. right. eexists. reflexivity.
Qed.

Lemma distro_is_lower (file : os_release) :
  exists x, fst (get_distro_and_family file) = lower x.
Proof.
  unfold get_distro_and_family. cbn [fst].
  destruct file as [|lines last]; [exists (py "unknown"); reflexivity|].
  destruct (scan lines last (py "unknown")) as [d|] eqn:E;
    [|exists (py "unknown"); reflexivity].
  destruct (scan_lower lines last _ d E) as [-> | [x ->]];
    [exists (py "unknown"); reflexivity | exists x; reflexivity].
Qed.

(** X1.  When [/etc/os-release] cannot be opened, or no line handed
    to the loop starts with "ID=" (whether the reading then reaches the
    end of the file or raises), the distro and the family are both
    "unknown". *)
Theorem probe_without_id (file : os_release) :
  (forall lines last line,
     file = Opened lines last -> In line lines ->
     startswith line (py "ID=") = false) ->
  get_distro_and_family file = (py "unknown", py "unknown").
Proof.
  intros H. unfold get_distro_and_family.
  destruct file as [|lines last]; [reflexivity|].
  rewrite scan_no_id.
  - destruct last; reflexivity.
  - intros line Hin. exact (H lines last line eq_refl Hin).
Qed.

Lemma probe_without_id_witness :
  get_distro_and_family
    (Opened [py "NAME=Gentoo" ++ [newline]; py "ID_LIKE=none" ++ [newline]]
            EndOfFile)
  = (py "unknown", py "unknown")
  /\ get_distro_and_family (Opened [py "NAME=Gentoo" ++ [newline]]
                                   ReadRaises)
     = (py "unknown", py "unknown").
Proof.
  split.
  - apply probe_without_id.
    intros lines last line H Hin. inversion H; subst lines.
    destruct Hin as [<- | [<- | []]]; reflexivity.
  - apply probe_without_id.
    intros lines last line H Hin. inversion H; subst lines.
    destruct Hin as [<- | []]; reflexivity.
Defined.

(** X2.  Among the lines handed to the loop, the first that starts
    with "ID=" decides: the loop breaks there, so neither the lines that
    would have been handed over after it nor the way the reading would
    have ended matter.  The distro is the text between that "=" and the
    next "=" (or the end of the line), stripped of whitespace, then of
    double quotes, and lowercased.  The lookup of the second field never
    fails on such a line.  (A line of the file is handed over only when
    its whole chunk decodes: see [os_release].) *)
Theorem probe_first_id_line (pre post : list str) (rest : str)
    (last : read_end) :
  (forall l, In l pre -> startswith l (py "ID=") = false) ->
  let distro :=
    lower (strip_chars [dquote]
             (strip (fst (until_sep equals_sign rest)))) in
  get_distro_and_family (Opened (pre ++ (py "ID=" ++ rest) :: post) last)
  = (distro, family_of distro).
Proof.
  intros Hpre. cbv zeta. unfold get_distro_and_family.
  rewrite (scan_first_id pre post last (py "ID=" ++ rest) _ Hpre)
    by (apply startswith_spec; exists rest; reflexivity).
  rewrite distro_of_line_id. reflexivity.
Qed.

Lemma probe_first_id_line_witness :
  get_distro_and_family
    (Opened [py "NAME=Manjaro Linux" ++ [newline];
             py "ID=Manjaro=x" ++ [newline];
             py "ID=ubuntu" ++ [newline]] ReadRaises)
  = (py "manjaro", py "Arch-based").
Proof.
  apply (probe_first_id_line [py "NAME=Manjaro Linux" ++ [newline]]
           [py "ID=ubuntu" ++ [newline]] (py "Manjaro=x" ++ [newline])
           ReadRaises).
  intros l [<- | []]. reflexivity.
Defined.

Lemma strip_line_end (v : str) : trimmed v -> strip (v ++ [newline]) = v.
Proof.
  intros [Hh Hl]. unfold strip.
  destruct v as [|c t]; [reflexivity|].
  cbn [app lstrip]. rewrite (Hh c t eq_refl).
  unfold rstrip. change (c :: t ++ [newline]) with ((c :: t) ++ [newline]).
  rewrite rev_app_distr. cbn [rev app lstrip].
  change (isspace newline) with true. cbv iota.
  apply (rstrip_fixed (c :: t)). exact Hl.
Qed.

Lemma lstrip_chars_fixed (chars s : str) :
  (forall c, In c s -> has_char c chars = false) ->
  lstrip_chars chars s = s.
Proof.
  destruct s as [|c s]; [reflexivity|]. intros H. cbn [lstrip_chars].
  rewrite (H c (or_introl eq_refl)). reflexivity.
Qed.

Lemma strip_chars_fixed (chars s : str) :
  (forall c, In c s -> has_char c chars = false) ->
  strip_chars chars s = s.
Proof.
  intros H. unfold strip_chars.
  rewrite (lstrip_chars_fixed chars s H).
  rewrite lstrip_chars_fixed; [apply rev_involutive|].
  intros c Hin. apply H. apply in_rev. exact Hin.
Qed.

Lemma strip_chars_quoted (v : str) :
  ~ In dquote v -> strip_chars [dquote] (dquote :: v ++ [dquote]) = v.
Proof.
  intros Hno.
  assert (Hq : forall c, In c v -> has_char c [dquote] = false).
  { intros c Hin. unfold has_char. cbn [existsb]. rewrite orb_false_r.
    apply ascii_eqb_neq. intros ->. exact (Hno Hin). }
  assert (Hq' : forall c, In c (rev v) -> has_char c [dquote] = false).
  { intros c Hin. apply Hq. apply in_rev. exact Hin. }
  unfold strip_chars. cbn [lstrip_chars].
  change (has_char dquote [dquote]) with true. cbv iota.
  destruct v as [|c t].
  - reflexivity.
  - cbn [app lstrip_chars]. rewrite (Hq c (or_introl eq_refl)).
    change (c :: t ++ [dquote]) with ((c :: t) ++ [dquote]).
    rewrite rev_app_distr. cbn [rev app lstrip_chars].
    change (has_char dquote [dquote]) with true. cbv iota.
    change (rev t ++ [c]) with (rev (c :: t)).
    rewrite (lstrip_chars_fixed [dquote] (rev (c :: t)) Hq').
    apply rev_involutive.
Qed.

(** X3.  An id without "=", without double quotes and without whitespace
    at its ends is read back in lowercase, whether the line gives it
    bare or between double quotes, and however the reading would have
    ended after that line. *)
Theorem probe_reads_id (v : str) (last : read_end) :
  ~ In equals_sign v -> ~ In dquote v -> trimmed v ->
  fst (get_distro_and_family (Opened [py "ID=" ++ v ++ [newline]] last))
  = lower v
  /\ fst (get_distro_and_family
            (Opened [py "ID=" ++ dquote :: v ++ [dquote; newline]] last))
     = lower v.
Proof.
  intros Heq Hq Htrim.
  assert (Hfield : forall value,
             ~ In equals_sign value ->
             fst (get_distro_and_family (Opened [py "ID=" ++ value] last))
             = lower (strip_chars [dquote] (strip value))).
  { intros value Hno. unfold get_distro_and_family. cbn [fst scan].
    replace (startswith (py "ID=" ++ value) (py "ID=")) with true
      by (symmetry; apply startswith_spec; exists value; reflexivity).
    unfold distro_of_line.
    pose proof (second_field value [] Hno (or_introl eq_refl)) as H.
    rewrite app_nil_r in H. rewrite H. reflexivity. }
  split.
  - rewrite Hfield.
    + rewrite (strip_line_end v Htrim), strip_chars_fixed; [reflexivity|].
      intros c Hin. unfold has_char. cbn [existsb]. rewrite orb_false_r.
      apply ascii_eqb_neq. intros ->. exact (Hq Hin).
    + intros Hin. apply in_app_or in Hin.
      destruct Hin as [Hin | [Hin | []]]; [exact (Heq Hin) | discriminate].
  - rewrite Hfield.
    + replace (dquote :: v ++ [dquote; newline])
        with ((dquote :: v ++ [dquote]) ++ [newline])
        by (cbn [app]; rewrite <- app_assoc; reflexivity).
      rewrite strip_line_end.
      * rewrite (strip_chars_quoted v Hq). reflexivity.
      * split.
        -- intros c t H. inversion H. reflexivity.
        -- intros c t H.
           change (dquote :: v ++ [dquote])
             with ((dquote :: v) ++ [dquote]) in H.
           apply app_inj_tail in H. destruct H as [_ <-]. reflexivity.
    + intros [Hin | Hin]; [discriminate Hin|].
      apply in_app_or in Hin.
      destruct Hin as [Hin | [Hin | [Hin | []]]];
        [exact (Heq Hin) | discriminate | discriminate].
Qed.

Lemma probe_reads_id_witness :
  fst (get_distro_and_family
         (Opened [py "ID=Fedora" ++ [newline]] EndOfFile))
  = py "fedora"
  /\ fst (get_distro_and_family
            (Opened [py "ID=" ++ dquote :: py "Fedora"
                     ++ [dquote; newline]] EndOfFile))
     = py "fedora".
Proof.
  apply (probe_reads_id (py "Fedora") EndOfFile).
  - vm_compute. intuition discriminate.
  - vm_compute. intuition discriminate.
  - split; intros c t H.
    + inversion H. reflexivity.
    + change (py "Fedora") with (py "Fedor" ++ ["a"%char]) in H.
      apply app_inj_tail in H. destruct H as [_ <-]. reflexivity.
Defined.

(** X4.  The family returned is a key of [expected_pm] exactly for the
    eleven ids of the table.  For every other distro the family is the
    distro id itself, which no key equals, so the policy filter lets
    every command through. *)
Theorem probe_family_policy (file : os_release) (cmd : str) :
  let distro := fst (get_distro_and_family file) in
  let family := snd (get_distro_and_family file) in
  (In distro known_ids ->
   exists expected, In (family, expected) expected_pm)
  /\ (~ In distro known_ids ->
      family = distro
      /\ (forall expected, ~ In (family, expected) expected_pm)
      /\ is_command_for_distro cmd family = true).
Proof.
  cbv zeta. destruct (distro_is_lower file) as [x Hx].
  unfold get_distro_and_family in *. cbn [fst snd] in *.
  set (distro := match file with
                 | OpenRaises => py "unknown"
                 | Opened lines last =>
                     match scan lines last (py "unknown") with
                     | Some d => d
                     | None => py "unknown"
                     end
                 end) in *.
  unfold family_of, known_ids.
  destruct (member distro debian_ids) eqn:Ed.
  { split.
    - intros _. eexists. left. reflexivity.
    - intros Hno. exfalso. apply Hno. apply in_or_app. left.
      apply member_spec. exact Ed. }
  destruct (member distro arch_ids) eqn:Ea.
  { split.
    - intros _. eexists. right. left. reflexivity.
    - intros Hno. exfalso. apply Hno. apply in_or_app. right.
      apply in_or_app. left. apply member_spec. exact Ea. }
  destruct (member distro rhel_ids) eqn:Er.
  { split.
    - intros _. eexists. right. right. left. reflexivity.
    - intros Hno. exfalso. apply Hno. apply in_or_app. right.
      apply in_or_app. right. apply member_spec. exact Er. }
  assert (Hkey : forall expected, ~ In (distro, expected) expected_pm).
  { intros expected Hin.
    destruct (expected_pm_keys_capital _ _ Hin) as [c [k [Hd Hc]]].
    rewrite Hx in Hd. exact (lower_head_not_upper x k c Hc Hd). }
  split.
  - intros Hin. exfalso.
    apply in_app_or in Hin. destruct Hin as [Hin | Hin].
    + apply member_spec in Hin. congruence.
    + apply in_app_or in Hin. destruct Hin as [Hin | Hin];
        apply member_spec in Hin; congruence.
  - intros _. split; [reflexivity|]. split; [exact Hkey|].
    unfold is_command_for_distro.
    destruct (any_keyword_in pm_keywords (lower cmd)); [|reflexivity].
    destruct (dict_get distro expected_pm) as [expected|] eqn:E;
      [|reflexivity].
    exfalso. exact (Hkey expected (dict_get_In _ _ _ E)).
Qed.

Lemma probe_family_policy_witness :
  is_command_for_distro (py "sudo pacman -S htop")
    (snd (get_distro_and_family
            (Opened [py "ID=gentoo" ++ [newline]] EndOfFile)))
  = true
  /\ exists expected,
       In (snd (get_distro_and_family
                  (Opened [py "ID=Mint" ++ [newline]] EndOfFile)),
           expected) expected_pm.
Proof.
  split.
  - apply (proj2 (probe_family_policy
                    (Opened [py "ID=gentoo" ++ [newline]] EndOfFile)
                    (py "sudo pacman -S htop"))).
    vm_compute. intuition discriminate.
  - apply (proj1 (probe_family_policy
                    (Opened [py "ID=Mint" ++ [newline]] EndOfFile) [])).
    vm_compute. tauto.
Defined.

End ProbeFacts.

(* ------------------------------------------------------------------ *)
(** ** Extraction without a span *)

Module ExtractEdge.

Import Extract PyStrFacts ExtractFacts.

Lemma span_no_tick_free (b : str) :
  ~ In backtick b -> span_no_tick b = (b, []).
Proof.
  induction b as [|c b IH]; intros Hno; [reflexivity|].
  cbn [span_no_tick].
  destruct (ascii_eqb c backtick) eqn:E.
  - apply ascii_eqb_eq in E. exfalso. apply Hno. left. exact E.
  - rewrite IH; [reflexivity|]. intros H. apply Hno. right. exact H.
Qed.

Lemma search_single_free (b : str) :
  ~ In backtick b -> search_single b = None.
Proof.
  intros Hno. rewrite <- (app_nil_r b).
  rewrite (search_single_no_tick b [] Hno). reflexivity.
Qed.

Lemma search_single_run (k : nat) (b : str) :
  ~ In backtick b -> search_single (ticks k ++ b) = None.
Proof.
  intros Hno. induction k as [|k IH]; [exact (search_single_free b Hno)|].
  unfold ticks in *. cbn [repeat app search_single match_single_at].
  change (ascii_eqb backtick backtick) with true. cbv iota.
  destruct k as [|k].
  - cbn [repeat app]. rewrite (span_no_tick_free b Hno).
    destruct b; exact IH.
  - cbn [repeat app span_no_tick].
    change (ascii_eqb backtick backtick) with true. cbv iota. exact IH.
Qed.

Lemma startswith_head (s p : str) (c x : ascii) :
  c <> x -> startswith (c :: s) (x :: p) = false.
Proof.
  intros H. cbn [startswith].
  replace (ascii_eqb x c) with false; [reflexivity|].
  symmetry. apply ascii_eqb_neq. congruence.
Qed.

Lemma until_fence_free (b : str) :
  ~ In backtick b -> until_fence b = None.
Proof.
  induction b as [|c b IH]; intros Hno; [reflexivity|].
  cbn [until_fence]. unfold fence at 1.
  rewrite startswith_head by (intros ->; apply Hno; left; reflexivity).
  rewrite IH; [reflexivity|]. intros H. apply Hno. right. exact H.
Qed.

Lemma startswith_fence_short (j : nat) (b : str) :
  j < 3 -> ~ In backtick b -> startswith (ticks j ++ b) fence = false.
Proof.
  intros Hj Hno.
  assert (Hb : forall p x, x = backtick -> startswith b (x :: p) = false).
  { intros p x ->. destruct b as [|c b]; [reflexivity|].
    apply startswith_head. intros ->. apply Hno. left. reflexivity. }
  destruct j as [|[|[|j]]]; try lia; unfold ticks, fence;
    cbn [repeat app startswith];
    change (ascii_eqb backtick backtick) with true; cbn [andb];
    apply Hb; reflexivity.
Qed.

Lemma until_fence_short (j : nat) (b : str) :
  j < 3 -> ~ In backtick b -> until_fence (ticks j ++ b) = None.
Proof.
  intros Hj Hno. induction j as [|j IH].
  - exact (until_fence_free b Hno).
  - assert (Hs := startswith_fence_short (S j) b Hj Hno).
    unfold ticks in *. cbn [repeat app] in *. cbn [until_fence].
    rewrite Hs. rewrite IH by lia. reflexivity.
Qed.

Lemma search_triple_free (b : str) :
  ~ In backtick b -> search_triple b = None.
Proof.
  induction b as [|c b IH]; intros Hno; [reflexivity|].
  cbn [search_triple]. unfold match_triple_at, fence.
  rewrite startswith_head by (intros ->; apply Hno; left; reflexivity).
  apply IH. intros H. apply Hno. right. exact H.
Qed.

Lemma search_triple_skip (a t : str) :
  ~ In backtick a -> search_triple (a ++ t) = search_triple t.
Proof.
  induction a as [|c a IH]; intros Hno; [reflexivity|].
  cbn [app search_triple]. unfold match_triple_at at 1, fence at 1.
  rewrite startswith_head by (intros ->; apply Hno; left; reflexivity).
  apply IH. intros H. apply Hno. right. exact H.
Qed.

Lemma match_triple_at_short (k : nat) (b : str) :
  k < 7 -> ~ In backtick b -> match_triple_at (ticks k ++ b) = None.
Proof.
  intros Hk Hno. unfold match_triple_at.
  destruct (Nat.lt_ge_cases k 3) as [H3 | H3].
  - rewrite (startswith_fence_short k b H3 Hno). reflexivity.
  - destruct (startswith (ticks k ++ b) fence); [|reflexivity].
    destruct k as [|[|[|k]]]; try lia.
    unfold ticks. cbn [repeat app skipn]. fold (ticks k).
    destruct k as [|k].
    + cbn [ticks repeat app]. destruct b as [|c b]; [reflexivity|].
      rewrite until_fence_free; [reflexivity|].
      intros H. apply Hno. right. exact H.
    + unfold ticks. cbn [repeat app]. fold (ticks k).
      rewrite until_fence_short by (assumption || lia). reflexivity.
Qed.

Lemma search_triple_short (k : nat) (b : str) :
  k < 7 -> ~ In backtick b -> search_triple (ticks k ++ b) = None.
Proof.
  intros Hk Hno. induction k as [|k IH].
  - exact (search_triple_free b Hno).
  - pose proof (match_triple_at_short (S k) b Hk Hno) as Hm.
    unfold ticks in *. cbn [repeat app] in *. cbn [search_triple].
    rewrite Hm. apply IH. lia.
Qed.

Lemma search_triple_long (k : nat) (b : str) :
  7 <= k -> search_triple (ticks k ++ b) = Some [backtick].
Proof.
  intros Hk.
  destruct k as [|[|[|[|[|[|[|k]]]]]]]; try lia.
  unfold ticks. cbn [repeat app]. fold (ticks k).
  assert (Hnil : forall t, startswith t [] = true)
    by (intros t; destruct t; reflexivity).
  assert (Hfence : forall t, startswith (backtick :: backtick :: backtick
                                         :: t) fence = true).
  { intros t. unfold fence. cbn [startswith].
    change (ascii_eqb backtick backtick) with true. cbn [andb].
    apply Hnil. }
  cbn [search_triple]. unfold match_triple_at. rewrite Hfence.
  cbn [skipn until_fence]. rewrite Hfence. reflexivity.
Qed.

Lemma search_single_one_run (a : str) (k : nat) (b : str) :
  ~ In backtick a -> ~ In backtick b ->
  search_single (a ++ ticks k ++ b) = None.
Proof.
  intros Ha Hb. rewrite (search_single_no_tick a _ Ha).
  exact (search_single_run k b Hb).
Qed.

(** X5.  A response whose backticks form a single run (text without
    backticks, then [k] backticks, then text without backticks) holds no
    span; [extract_command] then returns the empty string, unless the
    run has seven backticks or more, and then it returns one backtick:
    this is all the triple-backtick pattern can ever produce.  Every
    response either has a span or is of this shape. *)
Theorem extract_command_single_run (s : str) :
  (forall a k b,
     s = a ++ ticks k ++ b -> ~ In backtick a -> ~ In backtick b ->
     search_single s = None
     /\ extract_command s = if 7 <=? k then [backtick] else [])
  /\ ((exists pre body post, is_span s pre body post)
      \/ exists a k b,
           s = a ++ ticks k ++ b /\ ~ In backtick a /\ ~ In backtick b).
Proof.
  split.
  - intros a k b -> Ha Hb.
    split; [exact (search_single_one_run a k b Ha Hb)|].
    unfold extract_command. rewrite (search_single_one_run a k b Ha Hb).
    rewrite (search_triple_skip a _ Ha).
    destruct (Nat.leb_spec 7 k) as [Hk | Hk].
    + rewrite (search_triple_long k b Hk). reflexivity.
    + rewrite (search_triple_short k b Hk Hb). reflexivity.
  - induction s as [|c s IH].
    + right. exists [], 0, []. split; [reflexivity|]. split; intros [].
    + destruct IH as [[pre [body [post [Hs Hrest]]]]
                     | [a [k [b [Hs [Ha Hb]]]]]].
      * left. exists (c :: pre), body, post.
        split; [cbn [app]; congruence | exact Hrest].
      * destruct (ascii_eqb c backtick) eqn:E.
        -- apply ascii_eqb_eq in E. subst c.
           destruct a as [|x a].
           ++ right. exists [], (S k), b. subst s.
              split; [reflexivity|]. split; [intros [] | exact Hb].
           ++ destruct k as [|k].
              ** right. exists [], 1, ((x :: a) ++ b). subst s.
                 split; [reflexivity|]. split; [intros []|].
                 intros H. apply in_app_or in H. tauto.
              ** left. exists [], (x :: a), (ticks k ++ b). subst s.
                 split; [reflexivity|]. split; [discriminate | exact Ha].
        -- apply ascii_eqb_neq in E. right.
           exists (c :: a), k, b. subst s.
           split; [reflexivity|]. split; [|exact Hb].
           intros [H | H]; [congruence | exact (Ha H)].
Qed.

Lemma extract_command_single_run_witness :
  extract_command (py "no code here") = []
  /\ extract_command (py "run ```ls") = []
  /\ extract_command (py "see " ++ ticks 8 ++ py " above") = [backtick].
Proof.
  split; [|split].
  - apply (proj1 (extract_command_single_run (py "no code here"))
             (py "no code here") 0 []).
    + reflexivity.
    + vm_compute. intuition discriminate.
    + intros [].
  - apply (proj1 (extract_command_single_run (py "run ```ls"))
             (py "run ") 3 (py "ls")).
    + reflexivity.
    + vm_compute. intuition discriminate.
    + vm_compute. intuition discriminate.
  - apply (proj1 (extract_command_single_run
                    (py "see " ++ ticks 8 ++ py " above"))
             (py "see ") 8 (py " above")).
    + reflexivity.
    + vm_compute. intuition discriminate.
    + vm_compute. intuition discriminate.
Defined.

End ExtractEdge.

(* ------------------------------------------------------------------ *)
(** ** The heuristics, further *)

Module HeuristicFacts.

Import Distro Valid PyStrFacts ProbeFacts.

Lemma isspace_lower_char (c : ascii) : isspace (lower_char c) = isspace c.
Proof. destruct c as [[] [] [] [] [] [] [] []]; reflexivity. Qed.

Lemma newline_lower_char (c : ascii) :
  ascii_eqb newline (lower_char c) = ascii_eqb newline c.
Proof. destruct c as [[] [] [] [] [] [] [] []]; reflexivity. Qed.

Lemma lstrip_lower (s : str) : lstrip (lower s) = lower (lstrip s).
Proof.
  induction s as [|c s IH]; [reflexivity|].
  cbn [lower map lstrip]. rewrite isspace_lower_char.
  destruct (isspace c); [exact IH | reflexivity].
Qed.

Lemma strip_lower (s : str) : strip (lower s) = lower (strip s).
Proof.
  unfold strip, rstrip. rewrite lstrip_lower.
  unfold lower at 1. rewrite <- map_rev. fold (lower (rev (lstrip s))).
  rewrite lstrip_lower. unfold lower. rewrite map_rev. reflexivity.
Qed.

Lemma truthy_lower (s : str) : truthy (lower s) = truthy s.
Proof. destruct s; reflexivity. Qed.

Lemma has_newline_lower (s : str) :
  has_char newline (lower s) = has_char newline s.
Proof.
  unfold has_char. induction s as [|c s IH]; [reflexivity|].
  cbn [lower map existsb]. rewrite newline_lower_char. f_equal. exact IH.
Qed.

(** X6.  Neither heuristic looks at letter case, and validity does not
    look at whitespace around the candidate: lowercasing a command
    changes the verdict of neither [is_valid_command] nor
    [is_command_for_distro], and stripping it does not change the
    verdict of [is_valid_command]. *)
Theorem heuristics_ignore_case (cmd family : str) :
  is_valid_command (lower cmd) = is_valid_command cmd
  /\ is_valid_command (strip cmd) = is_valid_command cmd
  /\ is_command_for_distro (lower cmd) family
     = is_command_for_distro cmd family.
Proof.
  split; [|split].
  - unfold is_valid_command.
    rewrite strip_lower, truthy_lower, has_newline_lower, lower_idempotent.
    reflexivity.
  - unfold is_valid_command. rewrite strip_idempotent. reflexivity.
  - unfold is_command_for_distro. rewrite lower_idempotent. reflexivity.
Qed.

(** X7.  A candidate is rejected when, once stripped and lowercased, it
    starts with one of the conversation starters or contains "command:"
    or "output:" anywhere.  The starters are plain prefixes, not words:
    "hi" also rejects every command that begins with "hi". *)
Theorem is_valid_command_rejects (cmd : str) :
  (forall starter rest,
     In starter conversation_starters ->
     lower (strip cmd) = starter ++ rest ->
     is_valid_command cmd = false)
  /\ (forall banned,
        In banned [py "command:"; py "output:"] ->
        occurs_in banned (lower (strip cmd)) ->
        is_valid_command cmd = false).
Proof.
  split.
  - intros starter rest Hin Hpre. unfold is_valid_command.
    destruct (negb (truthy (strip cmd))); [reflexivity|].
    destruct (has_char newline (strip cmd)); [reflexivity|].
    replace (existsb (fun s => startswith (lower (strip cmd)) s)
                     conversation_starters) with true; [reflexivity|].
    symmetry. apply existsb_exists. exists starter. split; [exact Hin|].
    apply startswith_spec. exists rest. exact Hpre.
  - intros banned Hin Hocc. unfold is_valid_command.
    destruct (negb (truthy (strip cmd))); [reflexivity|].
    destruct (has_char newline (strip cmd)); [reflexivity|].
    destruct (existsb _ conversation_starters); [reflexivity|].
    apply contains_spec in Hocc.
    destruct Hin as [<- | [<- | []]]; rewrite Hocc;
      rewrite ?orb_true_r; reflexivity.
Qed.

Lemma is_valid_command_rejects_witness :
  is_valid_command (py " History | tail -n 5") = false
  /\ is_valid_command (py "echo Output: done") = false.
Proof.
  split.
  - apply (proj1 (is_valid_command_rejects (py " History | tail -n 5"))
             (py "hi") (py "story | tail -n 5")).
    + right. right. right. left. reflexivity.
    + reflexivity.
  - apply (proj2 (is_valid_command_rejects (py "echo Output: done"))
             (py "output:")).
    + right. left. reflexivity.
    + exists (py "echo "), (py " done"). reflexivity.
Defined.

(** The starter "it " needs something after its blank: alone, the blank
    is stripped first and the two letters pass. *)
Example it_alone_is_valid : is_valid_command (py "it ") = true.
Proof. reflexivity. Qed.

End HeuristicFacts.

(* ------------------------------------------------------------------ *)
(** ** The stream consumer, further *)

Module OllamaEdge.

Import Ollama Controller PyStrFacts.

Lemma iter_lines_extends (lines : list stream_line) (parts out : list json) :
  iter_lines lines parts = Some out -> exists more, out = parts ++ more.
Proof.
  revert parts. induction lines as [|[| text | data | text] lines IH];
    intros parts; cbn [iter_lines]; [ | | | | discriminate].
  - intros H. inversion H. exists []. rewrite app_nil_r. reflexivity.
  - apply IH.
  - apply IH.
  - destruct (get data (py "response") (JStr [])) as [part|];
      [|discriminate].
    destruct (get data (py "done") (JBool false)) as [done|];
      [|discriminate].
    destruct (json_truthy done).
    + intros H. inversion H. exists [part]. reflexivity.
    + intros H. destruct (IH _ H) as [more ->].
      exists (part :: more). rewrite <- app_assoc. reflexivity.
Qed.

Lemma join_not_string (before after : list json) (v : json) :
  (forall s, v <> JStr s) -> join (before ++ v :: after) = None.
Proof.
  intros Hv. induction before as [|x before IH]; cbn [app join].
  - destruct v; try reflexivity. exfalso. exact (Hv s eq_refl).
  - destruct x; try reflexivity. rewrite IH. reflexivity.
Qed.

(** The lines read before anything is set to [done] or goes wrong only
    add their fragments. *)
Lemma iter_lines_pending (l1 rest : list stream_line) (texts : list str) :
  forallb well_formed l1 = true ->
  (forall data, In (Fragment data) l1 -> is_done data = false) ->
  iter_lines (l1 ++ rest) (map JStr texts)
  = iter_lines rest (map JStr (texts ++ accumulated l1)).
Proof.
  revert texts. induction l1 as [|[| text | data | text] l1 IH];
    intros texts Hwf Hnd; [ | | | | discriminate Hwf].
  - cbn [app accumulated]. rewrite app_nil_r. reflexivity.
  - cbn [app iter_lines accumulated]. apply IH; [exact Hwf|].
    intros d Hin. apply Hnd. right. exact Hin.
  - cbn [app iter_lines accumulated]. apply IH; [exact Hwf|].
    intros d Hin. apply Hnd. right. exact Hin.
  - cbn [forallb] in Hwf. apply andb_true_iff in Hwf.
    destruct Hwf as [Hd Hwf].
    pose proof (Hnd data (or_introl eq_refl)) as Hdone.
    assert (Hrest : forall d, In (Fragment d) l1 -> is_done d = false)
      by (intros d Hin; apply Hnd; right; exact Hin).
    destruct data as [| b | z | s | elements | items]; try discriminate Hd.
    cbn [app iter_lines get accumulated response_text is_done well_formed]
      in *.
    rewrite Hdone.
    assert (Hstep : forall text, map JStr texts ++ [JStr text]
                                 = map JStr (texts ++ [text])).
    { intros text. rewrite map_app. reflexivity. }
    destruct (dict_get (py "response") items) as [[| b | z | s | e | o]|];
      try discriminate Hd;
      rewrite Hstep;
      (destruct (dict_get (py "done") items) as [done|];
       cbn [json_truthy];
       [rewrite Hdone|]);
      rewrite (IH _ Hwf Hrest), <- app_assoc; reflexivity.
Qed.

(** X8.  A line that decodes, but not to an object whose [response] is
    absent or a string, loses the whole answer when it is reached: the
    fragments accumulated before it are not returned and the lines after
    it do not matter.  This is unlike a line on which decoding raises
    [JSONDecodeError], which is skipped. *)
Theorem query_ollama_ill_formed (l1 l2 : list stream_line) (data : json) :
  forallb well_formed l1 = true ->
  (forall d, In (Fragment d) l1 -> is_done d = false) ->
  well_formed (Fragment data) = false ->
  query_ollama (Some (l1 ++ Fragment data :: l2)) = None.
Proof.
  intros Hwf Hnd Hbad. unfold query_ollama, consume.
  pose proof (iter_lines_pending l1 (Fragment data :: l2) [] Hwf Hnd) as H.
  cbn [map app] in H. rewrite H. clear H.
  destruct data as [| b | z | s | elements | items];
    try reflexivity.
  cbn [well_formed] in Hbad. cbn [iter_lines get].
  destruct (dict_get (py "response") items) as [v|]; [|discriminate Hbad].
  assert (Hv : forall s, v <> JStr s)
    by (intros s ->; discriminate Hbad).
  set (parts := map JStr (accumulated l1) ++ [v]).
  assert (Hjoin : forall more, join (parts ++ more) = None).
  { intros more. unfold parts. rewrite <- app_assoc.
    apply join_not_string. exact Hv. }
  destruct (json_truthy _).
  - rewrite <- (app_nil_r parts), Hjoin. reflexivity.
  - destruct (iter_lines l2 parts) as [out|] eqn:E; [|reflexivity].
    destruct (iter_lines_extends l2 parts out E) as [more ->].
    rewrite Hjoin. reflexivity.
Qed.

Lemma query_ollama_ill_formed_witness :
  query_ollama
    (Some [Fragment (JObj [(py "response", JStr (py "`ls"))]);
           Fragment (JArr []);
           Fragment (JObj [(py "response", JStr (py " -la`"));
                           (py "done", JBool true)])])
  = None
  /\ query_ollama
       (Some [Fragment (JObj [(py "response", JStr (py "`ls`"))]);
              Fragment (JObj [(py "response", JNull);
                              (py "done", JBool true)])])
     = None.
Proof.
  split.
  - apply (query_ollama_ill_formed
             [Fragment (JObj [(py "response", JStr (py "`ls"))])]
             [Fragment (JObj [(py "response", JStr (py " -la`"));
                              (py "done", JBool true)])]
             (JArr [])).
    + reflexivity.
    + intros d [H | []]. inversion H. reflexivity.
    + reflexivity.
  - apply (query_ollama_ill_formed
             [Fragment (JObj [(py "response", JStr (py "`ls`"))])] []
             (JObj [(py "response", JNull); (py "done", JBool true)])).
    + reflexivity.
    + intros d [H | []]. inversion H. reflexivity.
    + reflexivity.
Defined.

Lemma lstrip_blank (s : str) : forallb isspace s = true -> lstrip s = [].
Proof.
  induction s as [|c s IH]; [reflexivity|]. cbn [forallb lstrip].
  intros H. apply andb_true_iff in H. destruct H as [-> H]. exact (IH H).
Qed.

(** X9.  What [query_ollama] returns has no whitespace at its ends;
    and a well-formed stream whose fragments hold nothing but whitespace
    comes back as the empty string, which the request loop takes for no
    response at all: it stops without a final command, without touching
    the history and without reading a line. *)
Theorem query_ollama_blank_answer (lines : list stream_line) :
  (forall s, query_ollama (Some lines) = Some s -> trimmed s)
  /\ (forallb well_formed lines = true ->
      forallb isspace (List.concat (accumulated lines)) = true ->
      query_ollama (Some lines) = Some []
      /\ forall family v tty,
           loop_body family v (query_ollama (Some lines)) tty
           = {| how := Break; vars := v; stdin := tty;
                events := [SayNoResponse] |}).
Proof.
  split.
  - intros s. unfold query_ollama, consume.
    destruct (iter_lines lines []) as [parts|]; [|discriminate].
    destruct (join parts) as [text|]; [|discriminate].
    cbn [option_map]. intros H. inversion H. apply strip_trimmed.
  - intros Hwf Hblank.
    assert (H : query_ollama (Some lines) = Some []).
    { unfold query_ollama, consume.
      pose proof (OllamaFacts.iter_lines_accumulates lines [] Hwf) as Hp.
      cbn [map app] in Hp. rewrite Hp, OllamaFacts.join_strings.
      cbn [option_map]. unfold strip.
      rewrite (lstrip_blank _ Hblank). reflexivity. }
    split; [exact H|]. intros family v tty. rewrite H. reflexivity.
Qed.

Lemma query_ollama_blank_answer_witness :
  query_ollama
    (Some [Fragment (JObj [(py "response", JStr (py "  "))]);
           Blank;
           Fragment (JObj [(py "response", JStr [newline]);
                           (py "done", JBool true)])])
  = Some [].
Proof.
  apply (proj2 (query_ollama_blank_answer
                  [Fragment (JObj [(py "response", JStr (py "  "))]);
                   Blank;
                   Fragment (JObj [(py "response", JStr [newline]);
                                   (py "done", JBool true)])]));
    reflexivity.
Defined.

End OllamaEdge.

(* ------------------------------------------------------------------ *)
(** ** Execution and recovery, further *)

Module ShellEdge.

Import Shell PyStrFacts ShellFacts.

Section WithShell.

Variable sh : list str -> str -> run_outcome.

(** Rewrites the next [execute_command] of the goal to its result. *)
Ltac run_next :=
  unfold bind at 1;
  match goal with
  | |- context [execute_command sh ?command ?w0] =>
      let err := fresh "err" in
      destruct (execute_command_run sh command w0) as [err ->]
  end;
  cbv beta iota; cbn [stdin executed printed].

Lemma execute_and_recover_recovered (final_command : str) (w : world) :
  execute_and_recover sh final_command w
  = option_map (pair tt) (recovered sh final_command w).
Proof.
  unfold execute_and_recover, recovered, docker_group_case.
  run_next.
  destruct (exit_code (sh (executed w) final_command) =? 0)%Z eqn:E1;
    cbn [negb andb].
  { unfold print. reflexivity. }
  destruct (contains (py "usermod") (lower final_command)
            && contains (py "docker") (lower final_command)) eqn:Ed;
    cbv iota.
  - unfold bind at 1, input at 1.
    destruct (stdin w) as [|line rest]; [reflexivity|].
    cbv beta iota. cbn [stdin executed printed].
    destruct (member (lower (strip line)) affirmative).
    + run_next. fold groupadd.
      destruct (exit_code (sh (executed w ++ [final_command]) groupadd)
                =? 0)%Z eqn:Eg.
      * unfold bind at 1, print at 1. cbn [stdin executed printed].
        run_next.
        destruct (exit_code (sh ((executed w ++ [final_command])
                                 ++ [groupadd]) final_command) =? 0)%Z;
          cbn [negb]; unfold print; cbn [stdin executed printed option_map];
          rewrite <- !app_assoc; reflexivity.
      * unfold print. cbn [stdin executed printed option_map]. reflexivity.
    + unfold print. reflexivity.
  - unfold bind at 1, input at 1.
    destruct (stdin w) as [|line rest]; [reflexivity|].
    cbv beta iota. cbn [stdin executed printed].
    destruct (member (lower (strip line)) affirmative).
    + cbv zeta. unfold sudo_form.
      destruct (startswith (strip final_command) (py "sudo")); cbn [negb];
        run_next;
        match goal with
        | |- context [(?rc =? 0)%Z] => destruct (rc =? 0)%Z
        end; cbn [negb]; unfold print; reflexivity.
    + unfold print. reflexivity.
Qed.

(** X10.  When the first run exits nonzero and the command does not
    mention both "usermod" and "docker", one line is read.  On "y", "yes"
    or an empty line (any case, whitespace around) the command is run
    once more, behind "sudo " unless its stripped text already starts
    with "sudo", and the result of that run is reported; on anything
    else nothing more is run and the first return code is reported. *)
Theorem sudo_retry (final_command line : str) (rest : list str)
    (w : world) :
  stdin w = line :: rest ->
  exit_code (sh (executed w) final_command) <> 0%Z ->
  docker_group_case final_command = false ->
  let log1 := executed w ++ [final_command] in
  let rc1 := exit_code (sh (executed w) final_command) in
  let rc2 := exit_code (sh log1 (sudo_form final_command)) in
  exists w',
    ends_in sh final_command w w' /\ stdin w' = rest
    /\ (In (lower (strip line)) affirmative ->
        executed w' = executed w ++ [final_command; sudo_form final_command]
        /\ printed w'
           = printed w ++ [if (rc2 =? 0)%Z then SucceededWithSudo
                           else Exited rc2])
    /\ (~ In (lower (strip line)) affirmative ->
        executed w' = log1 /\ printed w' = printed w ++ [Exited rc1]).
Proof.
  intros Hin Hrc Hd. cbv zeta. unfold ends_in.
  rewrite execute_and_recover_recovered. unfold recovered.
  apply Z.eqb_neq in Hrc. rewrite Hrc, Hin, Hd.
  destruct (member (lower (strip line)) affirmative) eqn:Hyes;
    cbn [option_map]; eexists; (split; [reflexivity|]);
    cbn [stdin executed printed]; (split; [reflexivity|]).
  - split.
    + intros _. rewrite <- app_assoc. split; reflexivity.
    + intros Hno. exfalso. apply Hno. apply member_spec. exact Hyes.
  - split.
    + intros Hy. apply member_spec in Hy. congruence.
    + intros _. split; reflexivity.
Qed.

(** The commands run and the lines read, in every branch. *)
Lemma recovery_shape (final_command : str) (w : world) :
  match execute_and_recover sh final_command w with
  | None => True
  | Some (_, w') =>
      exists more,
        executed w' = executed w ++ final_command :: more
        /\ List.length more <= 2
        /\ (forall command, In command more ->
              command = final_command
              \/ command = sudo_form final_command
              \/ command = groupadd)
        /\ (stdin w' = stdin w \/ exists line, stdin w = line :: stdin w')
  end.
Proof.
  rewrite execute_and_recover_recovered. unfold recovered.
  assert (Hfin : forall rest log reports more,
             (rest = stdin w \/ exists line, stdin w = line :: rest) ->
             log = executed w ++ final_command :: more ->
             List.length more <= 2 ->
             (forall command, In command more ->
                command = final_command
                \/ command = sudo_form final_command
                \/ command = groupadd) ->
             exists more0,
               executed {| stdin := rest; executed := log;
                           printed := printed w ++ reports |}
               = executed w ++ final_command :: more0
               /\ List.length more0 <= 2
               /\ (forall command, In command more0 ->
                     command = final_command
                     \/ command = sudo_form final_command
                     \/ command = groupadd)
               /\ (stdin {| stdin := rest; executed := log;
                            printed := printed w ++ reports |}
                   = stdin w
                   \/ exists l,
                        stdin w
                        = l :: stdin {| stdin := rest; executed := log;
                                        printed := printed w ++ reports |})).
  { intros rest log reports more Hrest Hlog Hlen Hall. exists more.
    cbn [stdin executed printed]. auto. }
  destruct (exit_code (sh (executed w) final_command) =? 0)%Z.
  { cbn [option_map]. apply (Hfin _ _ _ []);
      [left; reflexivity | reflexivity | cbn; lia | intros c []]. }
  destruct (stdin w) as [|line rest]; [exact I|].
  assert (Hr : rest = line :: rest \/ exists l, line :: rest = l :: rest)
    by (right; exists line; reflexivity).
  destruct (docker_group_case final_command);
    destruct (member (lower (strip line)) affirmative).
  - destruct (exit_code (sh (executed w ++ [final_command]) groupadd)
              =? 0)%Z; cbn [option_map].
    + apply (Hfin _ _ _ [groupadd; final_command]);
        [exact Hr | rewrite <- app_assoc; reflexivity | cbn; lia
        | cbn [In]; intuition auto].
    + apply (Hfin _ _ _ [groupadd]);
        [exact Hr | rewrite <- app_assoc; reflexivity | cbn; lia
        | cbn [In]; intuition auto].
  - cbn [option_map]. apply (Hfin _ _ _ []);
      [exact Hr | reflexivity | cbn; lia | intros c []].
  - cbn [option_map]. apply (Hfin _ _ _ [sudo_form final_command]);
      [exact Hr | rewrite <- app_assoc; reflexivity | cbn; lia
      | cbn [In]; intuition auto].
  - cbn [option_map]. apply (Hfin _ _ _ []);
      [exact Hr | reflexivity | cbn; lia | intros c []].
Qed.

(** X11.  Whatever the shell and the user do, [execute_and_recover]
    runs the command first and then at most two more commands, each of
    them the command itself, its sudo form or the creation of the docker
    group; it reads at most one line; after a first return code of 0 it
    runs nothing else and reads nothing.  It fails (on [EOFError]) only
    when the first return code is not 0 and no line is left to read. *)
Theorem recovery_bounded (final_command : str) (w : world) :
  match execute_and_recover sh final_command w with
  | None =>
      exit_code (sh (executed w) final_command) <> 0%Z /\ stdin w = []
  | Some (_, w') =>
      exists more,
        executed w' = executed w ++ final_command :: more
        /\ List.length more <= 2
        /\ (forall command, In command more ->
              command = final_command
              \/ command = sudo_form final_command
              \/ command = groupadd)
        /\ (stdin w' = stdin w \/ exists line, stdin w = line :: stdin w')
        /\ (exit_code (sh (executed w) final_command) = 0%Z ->
            more = [] /\ stdin w' = stdin w
            /\ printed w' = printed w ++ [Succeeded])
  end.
Proof.
  pose proof (recovery_shape final_command w) as Hshape.
  pose proof (execute_and_recover_recovered final_command w) as Hrec.
  destruct (execute_and_recover sh final_command w) as [[u w']|].
  - destruct Hshape as [more [Hlog [Hlen [Hall Hread]]]].
    exists more. repeat (split; [assumption|]).
    intros H0. apply Z.eqb_eq in H0. unfold recovered in Hrec.
    rewrite H0 in Hrec. cbn [option_map] in Hrec.
    inversion Hrec; subst w'. cbn [stdin executed printed] in *.
    split; [|split; reflexivity].
    apply app_inv_head in Hlog. destruct more; [reflexivity|].
    discriminate Hlog.
  - unfold recovered in Hrec.
    destruct (exit_code (sh (executed w) final_command) =? 0)%Z eqn:E1;
      [discriminate Hrec|].
    apply Z.eqb_neq in E1. split; [exact E1|].
    destruct (stdin w) as [|line rest]; [reflexivity|].
    destruct (docker_group_case final_command);
      destruct (member (lower (strip line)) affirmative);
      try destruct (exit_code (sh (executed w ++ [final_command]) groupadd)
                    =? 0)%Z;
      discriminate Hrec.
Qed.

End WithShell.

Lemma sudo_retry_witness :
  let sh := fun (log : list str) (command : str) =>
              if startswith command (py "sudo") then Completed 0
              else Completed 13 in
  let w := {| stdin := [py " YES "; py "next"]; executed := [];
              printed := [] |} in
  exists w',
    execute_and_recover sh (py "apt update") w = Some (tt, w')
    /\ stdin w' = [py "next"]
    /\ executed w' = [py "apt update"; py "sudo apt update"]
    /\ printed w' = [SucceededWithSudo].
Proof.
  cbv zeta.
  destruct (sudo_retry
              (fun (log : list str) (command : str) =>
                 if startswith command (py "sudo") then Completed 0
                 else Completed 13)
              (py "apt update") (py " YES ") [py "next"]
              {| stdin := [py " YES "; py "next"]; executed := [];
                 printed := [] |})
    as [w' [Hrun [Hin [Hyes _]]]].
  - reflexivity.
  - vm_compute. discriminate.
  - reflexivity.
  - exists w'. split; [exact Hrun|]. split; [exact Hin|].
    destruct Hyes as [Hex Hpr]; [vm_compute; tauto|].
    split; [exact Hex | exact Hpr].
Defined.

End ShellEdge.

(* ------------------------------------------------------------------ *)
(** ** The main loop *)

Module MainFacts.

Import Distro Valid Extract Controller Main PyStrFacts ControllerFacts.

Lemma clarify_stdin (label : str) (nag : event) (r : str) (v : locals)
    (lines : list str) (said : list event) :
  let p := clarify label nag r v lines said in
  stdin p = lines \/ exists line, lines = line :: stdin p.
Proof. cbv zeta. clarify_cases lines; eauto. Qed.

Lemma loop_body_stdin (family : str) (v : locals) (answer : option str)
    (lines : list str) :
  let p := loop_body family v answer lines in
  stdin p = lines \/ exists line, lines = line :: stdin p.
Proof. cbv zeta. body_cases answer; auto; apply clarify_stdin. Qed.

Lemma loop_iter_tty (family : str) (c : config) :
  List.length (tty (loop_iter family c)) <= List.length (tty c).
Proof.
  unfold loop_iter. destruct (st c); auto.
  destruct (iteration (now c) <? max_iterations); auto.
  destruct (llm c) as [|answer rest]; auto. cbn [tty].
  destruct (loop_body_stdin family (now c) answer (tty c))
    as [H | [line H]]; apply (f_equal (@List.length str)) in H;
    cbn [List.length] in H; lia.
Qed.

Lemma run_tty (family : str) (n : nat) (c : config) :
  List.length (tty (run family n c)) <= List.length (tty c).
Proof.
  revert c. induction n as [|n IH]; intros c; cbn [run]; [lia|].
  pose proof (IH (loop_iter family c)).
  pose proof (loop_iter_tty family c). lia.
Qed.

Lemma run_llm (family : str) (n : nat) (c : config) :
  incl (llm (run family n c)) (llm c).
Proof.
  revert c. induction n as [|n IH]; intros c; cbn [run];
    [apply incl_refl|].
  intros x Hin. apply IH in Hin.
  destruct (loop_iter_llm family c) as [Heq | [answer Heq]].
  - rewrite <- Heq. exact Hin.
  - rewrite Heq. right. exact Hin.
Qed.

Lemma request_loop_approved (family user_instruction : str)
    (llm_answers : list (option str)) (lines : list str) (cmd : str) :
  final_command
    (now (request_loop family user_instruction llm_answers lines))
  = Some cmd ->
  approved family llm_answers cmd.
Proof.
  unfold request_loop. intros H. apply run_final in H.
  destruct H as [H | H]; [discriminate H | exact H].
Qed.

Lemma approved_incl (family : str) (l1 l2 : list (option str)) (cmd : str) :
  incl l1 l2 -> approved family l1 cmd -> approved family l2 cmd.
Proof.
  intros Hincl [r [Hin Hrest]]. exists r. split; [apply Hincl, Hin|].
  exact Hrest.
Qed.

Section WithShell.

Variable sh : list str -> str -> Shell.run_outcome.

(** When the execution step dies, it dies at its first prompt: one
    command has been run, the first return code is not 0 and no line is
    left. *)
Lemma death_after_first_run (final_command : str) (w : Shell.world) :
  log_after_first_run sh final_command w
  = Shell.executed w ++ [final_command]
  /\ (Shell.execute_and_recover sh final_command w = None ->
      Shell.stdin w = []
      /\ Shell.exit_code (sh (Shell.executed w) final_command) <> 0%Z).
Proof.
  split.
  - unfold log_after_first_run.
    destruct (ShellFacts.execute_command_run sh final_command w)
      as [err ->].
    reflexivity.
  - rewrite ShellEdge.execute_and_recover_recovered. unfold Shell.recovered.
    destruct (Shell.exit_code (sh (Shell.executed w) final_command) =? 0)%Z
      eqn:E1; [discriminate|].
    apply Z.eqb_neq in E1.
    destruct (Shell.stdin w) as [|line rest]; [auto|].
    destruct (Shell.docker_group_case final_command);
      destruct (member (lower (strip line)) Shell.affirmative);
      [destruct (Shell.exit_code
                   (sh (Shell.executed w ++ [final_command]) Shell.groupadd)
                 =? 0)%Z| | |];
      discriminate.
Qed.

Lemma main_pass_advances (family : str) (s : session) :
  match main_pass sh family s with
  | Quit s' =>
      advances family s s' /\ shell_log s' = shell_log s
      /\ answers s' = answers s
  | Next s' => advances family s s'
  | Died log | Stalled log => log_grows family s log
  end.
Proof.
  assert (Hsame : log_grows family s (shell_log s)).
  { exists []. rewrite app_nil_r. split; [reflexivity | intros c []]. }
  unfold main_pass.
  destruct (keyboard s) as [|first lines] eqn:Ek; [exact Hsame|].
  assert (Hnone : forall (s' : session),
             incl (answers s') (answers s) ->
             List.length (keyboard s') <= List.length lines ->
             shell_log s' = shell_log s ->
             advances family s s').
  { intros s' Hi Hk Hl. split; [exact Hi|]. split.
    - rewrite Ek. cbn [List.length]. lia.
    - exists []. rewrite app_nil_r. split; [exact Hl|].
      split; [cbn; lia | intros c []]. }
  cbv zeta.
  destruct (member (lower (strip first)) quit_words).
  { split; [|split; reflexivity].
    apply Hnone; cbn [answers keyboard shell_log];
      [apply incl_refl | lia | reflexivity]. }
  set (c := request_loop family (strip first) (answers s) lines).
  assert (Hllm : incl (llm c) (answers s)).
  { unfold c, request_loop.
    exact (run_llm family _ (start (strip first) (answers s) lines)). }
  assert (Htty : List.length (tty c) <= List.length lines).
  { unfold c, request_loop.
    exact (run_tty family _ (start (strip first) (answers s) lines)). }
  destruct (st c); try exact Hsame.
  destruct (final_command (now c)) as [[|ch cmd]|] eqn:Ef.
  - apply Hnone; cbn [answers keyboard shell_log]; auto.
  - assert (Hok : approved family (answers s) (ch :: cmd)).
    { apply (request_loop_approved family (strip first) (answers s) lines).
      exact Ef. }
    destruct (tty c) as [|line lines'] eqn:Et; [exact Hsame|].
    cbn [List.length] in Htty.
    destruct (member (lower (strip line)) Shell.affirmative); cbn [negb].
    + pose proof (ShellEdge.recovery_shape sh (ch :: cmd)
                    {| Shell.stdin := lines'; Shell.executed := shell_log s;
                       Shell.printed := [] |}) as Hshape.
      destruct (Shell.execute_and_recover sh (ch :: cmd) _)
        as [[u w']|].
      * destruct Hshape as [more [Hlog [Hlen [Hall Hread]]]].
        cbn [Shell.stdin Shell.executed] in *.
        split; [exact Hllm|]. split.
        -- cbn [keyboard]. rewrite Ek. cbn [List.length].
           destruct Hread as [-> | [l Hl]]; [lia|].
           rewrite Hl in Htty. cbn [List.length] in Htty. lia.
        -- exists ((ch :: cmd) :: more). cbn [shell_log].
           split; [exact Hlog|]. split; [cbn [List.length]; lia|].
           intros command [<- | Hin].
           ++ exists (ch :: cmd). split; [exact Hok | left; reflexivity].
           ++ exists (ch :: cmd). split; [exact Hok|].
              destruct (Hall _ Hin) as [-> | [-> | ->]].
              ** left. reflexivity.
              ** unfold Shell.sudo_form.
                 destruct (startswith (strip (ch :: cmd)) (py "sudo"));
                   [left; reflexivity | right; left; reflexivity].
              ** right. right. reflexivity.
      * rewrite (proj1 (death_after_first_run (ch :: cmd) _)).
        cbn [Shell.executed]. exists [ch :: cmd].
        split; [reflexivity|]. intros command [<- | []].
        exists (ch :: cmd). split; [exact Hok | left; reflexivity].
    + apply Hnone; cbn [answers keyboard shell_log]; auto; lia.
  - apply Hnone; cbn [answers keyboard shell_log]; auto.
Qed.

Lemma permitted_incl (family : str) (l1 l2 : list (option str))
    (command : str) :
  incl l1 l2 -> permitted family l1 command -> permitted family l2 command.
Proof.
  intros Hincl [cmd [Hok Hd]]. exists cmd. split; [|exact Hd].
  exact (approved_incl family l1 l2 cmd Hincl Hok).
Qed.

Lemma log_grows_trans (family : str) (s s1 : session) (log : list str) :
  advances family s s1 -> log_grows family s1 log -> log_grows family s log.
Proof.
  intros [Hi [_ [new [Hlog [_ Hall]]]]] [new2 [Hlog2 Hall2]].
  exists (new ++ new2). split.
  - rewrite Hlog2, Hlog, app_assoc. reflexivity.
  - intros command Hin. apply in_app_or in Hin.
    destruct Hin as [Hin | Hin]; [exact (Hall _ Hin)|].
    exact (permitted_incl family _ _ _ Hi (Hall2 _ Hin)).
Qed.

Lemma main_loop_advances (family : str) (passes : nat) (s : session) :
  log_grows family s (log_of (main_loop sh family passes s)).
Proof.
  revert s. induction passes as [|passes IH]; intros s; cbn [main_loop].
  - exists []. cbn [log_of]. rewrite app_nil_r.
    split; [reflexivity | intros c []].
  - pose proof (main_pass_advances family s) as Hpass.
    destruct (main_pass sh family s) as [s1 | s1 | log | log].
    + destruct Hpass as [[_ [_ [new [Hlog [_ Hall]]]]] _].
      exists new. cbn [log_of]. auto.
    + exact (log_grows_trans family s s1 _ Hpass (IH s1)).
    + exact Hpass.
    + exact Hpass.
Qed.

(** X12.  Over a whole session, however many passes it takes, whatever
    the LLM, the user and the shell do, and however the session ends (by
    "exit" or "quit", still running, dead on [EOFError], or short of an
    answer): every command handed to the shell is a candidate extracted
    from one of the answers of the LLM that passes [is_valid_command]
    and [is_command_for_distro] for the family, or that candidate behind
    "sudo ", or "sudo groupadd docker". *)
Theorem session_runs_approved (family : str) (passes : nat)
    (llm_answers : list (option str)) (lines : list str) (command : str) :
  In command
     (log_of (main_loop sh family passes (fresh llm_answers lines))) ->
  permitted family llm_answers command.
Proof.
  destruct (main_loop_advances family passes (fresh llm_answers lines))
    as [new [Hlog Hall]].
  rewrite Hlog. cbn [fresh shell_log answers app] in *. apply Hall.
Qed.

Lemma main_loop_keyboard (family : str) (passes : nat) (s : session) :
  List.length (keyboard s) < passes ->
  match main_loop sh family passes s with
  | Next _ => False
  | _ => True
  end.
Proof.
  revert s. induction passes as [|passes IH]; intros s Hlen; [lia|].
  cbn [main_loop].
  pose proof (main_pass_advances family s) as Hpass.
  destruct (main_pass sh family s) as [s1 | s1 | log | log]; try exact I.
  destruct Hpass as [_ [Hk _]]. apply IH. lia.
Qed.

(** X13.  Every pass of the outer loop reads at least one line, so a
    session with finitely many lines to read ends within one pass more
    than there are lines: by "exit" or "quit", by [EOFError], or short
    of an answer of the LLM.  A first line that is "exit" or "quit" (any
    case, whitespace around) ends it at once: nothing is asked of the
    LLM and nothing is run. *)
Theorem session_ends (family : str) (passes : nat) (s : session) :
  (List.length (keyboard s) < passes ->
   match main_loop sh family passes s with
   | Next _ => False
   | _ => True
   end)
  /\ (forall first lines,
        keyboard s = first :: lines ->
        In (lower (strip first)) quit_words ->
        main_loop sh family (S passes) s
        = Quit {| answers := answers s; keyboard := lines;
                  shell_log := shell_log s;
                  transcript := transcript s ++ [FromMain Exiting] |}).
Proof.
  split; [apply main_loop_keyboard|].
  intros first lines Hk Hq. cbn [main_loop]. unfold main_pass.
  rewrite Hk. apply member_spec in Hq. cbv zeta. rewrite Hq. reflexivity.
Qed.

End WithShell.

(** A session that dies at the sudo prompt: the command it ran before
    is accounted for. *)
Lemma session_runs_approved_witness :
  let sh := fun (log : list str) (command : str) => Shell.Completed 1 in
  main_loop sh (py "Arch-based") 1
    (fresh [Some (py "`rm -rf build`")] [py "clean"; py "y"])
  = Died [py "rm -rf build"]
  /\ permitted (py "Arch-based") [Some (py "`rm -rf build`")]
               (py "rm -rf build").
Proof.
  cbv zeta. split; [reflexivity|].
  apply (session_runs_approved
           (fun (log : list str) (command : str) => Shell.Completed 1)
           (py "Arch-based") 1 [Some (py "`rm -rf build`")]
           [py "clean"; py "y"] (py "rm -rf build")).
  vm_compute. left. reflexivity.
Defined.

(** One request, accepted and run, then the end of the session. *)
Lemma session_ends_witness :
  let sh := fun (log : list str) (command : str) => Shell.Completed 0 in
  match main_loop sh (py "Arch-based") 4
          (fresh [Some (py "`ls -la`")]
                 [py "list the files"; py "y"; py " Quit "]) with
  | Next _ => False
  | _ => True
  end
  /\ main_loop sh (py "Arch-based") 1
       (fresh [Some (py "`ls -la`")] [py "EXIT"; py "ignored"])
     = Quit {| answers := [Some (py "`ls -la`")];
               keyboard := [py "ignored"]; shell_log := [];
               transcript := [FromMain Exiting] |}.
Proof.
  cbv zeta. split.
  - apply (proj1 (session_ends
                    (fun (log : list str) (command : str) =>
                       Shell.Completed 0)
                    (py "Arch-based") 4
                    (fresh [Some (py "`ls -la`")]
                           [py "list the files"; py "y"; py " Quit "]))).
    cbn [fresh keyboard List.length]. lia.
  - apply (proj2 (session_ends
                    (fun (log : list str) (command : str) =>
                       Shell.Completed 0)
                    (py "Arch-based") 0
                    (fresh [Some (py "`ls -la`")]
                           [py "EXIT"; py "ignored"]))
             (py "EXIT") [py "ignored"]).
    + reflexivity.
    + vm_compute. tauto.
Defined.

(** A session of two requests: the first is declined, the second runs,
    fails and is run again behind "sudo ". *)
Example two_requests :
  let sh := fun (log : list str) (command : str) =>
              if startswith command (py "sudo") then Shell.Completed 0
              else Shell.Completed 1 in
  match main_loop sh (py "Ubuntu/Debian-based") 5
          (fresh [Some (py "`rm -rf build`"); Some (py "`apt update`")]
                 [py "clean up"; py "n"; py "refresh packages"; py "";
                  py "yes"; py "quit"]) with
  | Quit s' =>
      shell_log s' = [py "apt update"; py "sudo apt update"]
      /\ keyboard s' = [] /\ answers s' = []
  | _ => False
  end.
Proof. vm_compute. repeat split. Qed.

End MainFacts.

(* ------------------------------------------------------------------ *)
(** ** The conversation controller, further *)

Module ControllerEdge.

Import Distro Valid Extract Controller PyStrFacts ControllerFacts.

Lemma build_prompt_app (h more : list str) (family : str) :
  build_prompt (h ++ more) family = build_prompt h family ++ rendered more.
Proof.
  assert (H : forall acc : str,
             fold_left (fun prompt entry => prompt ++ entry ++ [newline])
                       more acc
             = acc ++ rendered more).
  { unfold rendered.
    induction more as [|e more IH]; intros acc;
      cbn [fold_left map List.concat].
    - rewrite app_nil_r. reflexivity.
    - rewrite IH, <- !app_assoc. reflexivity. }
  unfold build_prompt. cbv zeta. rewrite fold_left_app. apply H.
Qed.

(** In a clarification state the pass is the clarification exchange. *)
Lemma loop_body_clarifies (family : str) (v : locals) (llm_response : str)
    (lines : list str) :
  clarify_mismatch family llm_response \/ clarify_question llm_response ->
  loop_body family v (Some llm_response) lines
  = clarify (label_for llm_response) (nag_for llm_response) llm_response v
            lines [shown_for family llm_response].
Proof.
  intros Hstate. unfold label_for, nag_for, shown_for, loop_body.
  destruct llm_response as [|ch r].
  - destruct Hstate as [[H _] | [_ H]]; discriminate H.
  - destruct Hstate as [[Ha Hd] | [Ha Hq]]; rewrite Ha;
      unfold command_attempt in Ha; rewrite Ha.
    + rewrite Hd. reflexivity.
    + rewrite Hq. reflexivity.
Qed.

Lemma loop_iter_clarifies (family : str) (c : config) (llm_response : str)
    (rest : list (option str)) :
  st c = Running ->
  iteration (now c) < max_iterations ->
  llm c = Some llm_response :: rest ->
  clarify_mismatch family llm_response \/ clarify_question llm_response ->
  loop_iter family c
  = let p := clarify (label_for llm_response) (nag_for llm_response)
               llm_response (now c) (tty c)
               [shown_for family llm_response] in
    {| st := match how p with
             | Break => Stopped
             | Continue => Running
             | Eof => Crashed
             end;
       now := vars p; llm := rest; tty := stdin p;
       trace := trace c
                ++ Query (build_prompt (conversation_history (now c)) family)
                   :: events p |}.
Proof.
  intros Hst Hit Hllm Hstate. unfold loop_iter. rewrite Hst, Hllm.
  apply Nat.ltb_lt in Hit. rewrite Hit.
  rewrite (loop_body_clarifies family (now c) llm_response (tty c) Hstate).
  reflexivity.
Qed.

Section Clarification.

Variables (family : str) (c : config) (llm_response line : str)
          (rest : list (option str)) (lines : list str).

Hypothesis Hst : st c = Running.
Hypothesis Hit : iteration (now c) < max_iterations.
Hypothesis Hllm : llm c = Some llm_response :: rest.
Hypothesis Htty : tty c = line :: lines.
Hypothesis Hstate :
  clarify_mismatch family llm_response \/ clarify_question llm_response.

(** X14.  In either clarification state, a line that reads "cancel",
    "break", "exit" or "quit" (any case, whitespace around) ends the
    request: the loop stops with no final command, the history and the
    counter are as before, and no later pass does anything. *)
Theorem clarification_cancelled :
  In (lower (strip line)) cancel_words ->
  let c' := loop_iter family c in
  st c' = Stopped
  /\ final_command (now c') = None
  /\ conversation_history (now c') = conversation_history (now c)
  /\ iteration (now c') = iteration (now c)
  /\ llm c' = rest /\ tty c' = lines
  /\ forall m, run family m c' = c'.
Proof.
  intros Hcancel. cbv zeta. apply member_spec in Hcancel.
  rewrite (loop_iter_clarifies family c llm_response rest Hst Hit Hllm
             Hstate).
  rewrite Htty. unfold clarify. rewrite Hcancel.
  cbv zeta. cbn [st now llm tty how vars stdin set_final final_command
                 conversation_history iteration].
  repeat (split; [reflexivity|]).
  intros m. induction m as [|m IH]; cbn [run]; [reflexivity|].
  rewrite loop_iter_idle; [exact IH | cbn [st]; discriminate].
Qed.

(** X15.  In either clarification state, a line that is neither empty
    nor a cancellation word (once stripped) is recorded: the history
    grows by exactly two entries, the labelled response and "User: "
    followed by the stripped line; the counter grows by one; the loop
    goes on, and the prompt of the next query is the previous prompt
    followed by these two entries, one per line. *)
Theorem clarification_recorded :
  strip line <> [] ->
  ~ In (lower (strip line)) cancel_words ->
  let c' := loop_iter family c in
  let added := [label_for llm_response ++ llm_response;
                py "User: " ++ strip line] in
  st c' = Running
  /\ conversation_history (now c') = conversation_history (now c) ++ added
  /\ iteration (now c') = iteration (now c) + 1
  /\ final_command (now c') = final_command (now c)
  /\ llm c' = rest /\ tty c' = lines
  /\ build_prompt (conversation_history (now c')) family
     = build_prompt (conversation_history (now c)) family
       ++ label_for llm_response ++ llm_response ++ [newline]
       ++ py "User: " ++ strip line ++ [newline].
Proof.
  intros Hne Hno. cbv zeta.
  assert (Hm : member (lower (strip line)) cancel_words = false).
  { destruct (member (lower (strip line)) cancel_words) eqn:E;
      [|reflexivity].
    apply member_spec in E. contradiction. }
  apply truthy_nonempty in Hne.
  rewrite (loop_iter_clarifies family c llm_response rest Hst Hit Hllm
             Hstate).
  rewrite Htty. unfold clarify. rewrite Hm, Hne.
  cbv zeta. cbn [negb st now llm tty how vars stdin final_command
                 conversation_history iteration append_history
                 incr_iteration].
  rewrite <- app_assoc. cbn [app].
  repeat (split; [reflexivity|]).
  rewrite build_prompt_app. unfold rendered. cbn [map List.concat].
  rewrite app_nil_r, <- !app_assoc. reflexivity.
Qed.

End Clarification.

Lemma clarification_cancelled_witness :
  let c := start (py "install htop")
                 [Some (py "Which one?"); Some (py "`ls`")]
                 [py " Cancel "; py "y"] in
  let c' := loop_iter (py "Arch-based") c in
  st c' = Stopped /\ final_command (now c') = None
  /\ run (py "Arch-based") 3 c' = c'.
Proof.
  cbv zeta.
  destruct (clarification_cancelled (py "Arch-based")
              (start (py "install htop")
                     [Some (py "Which one?"); Some (py "`ls`")]
                     [py " Cancel "; py "y"])
              (py "Which one?") (py " Cancel ") [Some (py "`ls`")] [py "y"])
    as [Hst [Hfin [_ [_ [_ [_ Hrun]]]]]].
  - reflexivity.
  - cbn [start now iteration]. unfold max_iterations. lia.
  - reflexivity.
  - reflexivity.
  - right. split; reflexivity.
  - vm_compute. tauto.
  - split; [exact Hst|]. split; [exact Hfin | apply Hrun].
Defined.

Lemma clarification_recorded_witness :
  let c := start (py "install htop") [Some (py "`sudo pacman -S htop`")]
                 [py " use apt "] in
  let c' := loop_iter (py "Ubuntu/Debian-based") c in
  conversation_history (now c')
  = [py "User: install htop";
     py "Assistant (mismatch): `sudo pacman -S htop`";
     py "User: use apt"]
  /\ iteration (now c') = 1.
Proof.
  cbv zeta.
  destruct (clarification_recorded (py "Ubuntu/Debian-based")
              (start (py "install htop")
                     [Some (py "`sudo pacman -S htop`")] [py " use apt "])
              (py "`sudo pacman -S htop`") (py " use apt ") [] [])
    as [_ [Hh [Hi _]]].
  - reflexivity.
  - cbn [start now iteration]. unfold max_iterations. lia.
  - reflexivity.
  - reflexivity.
  - left. split; reflexivity.
  - discriminate.
  - vm_compute. intuition discriminate.
  - split; [rewrite Hh; reflexivity | rewrite Hi; reflexivity].
Defined.

(** *** The history and the queries *)

Lemma clarify_tally (label : str) (nag : event) (r : str) (v : locals)
    (lines : list str) (said : list event) :
  final_command v = None ->
  List.length (conversation_history v) = tally v ->
  let p := clarify label nag r v lines said in
  List.length (conversation_history (vars p)) = tally (vars p)
  /\ exists more,
       conversation_history (vars p) = conversation_history v ++ more.
Proof.
  intros Hf Ht. cbv zeta. unfold tally in *.
  clarify_cases lines; rewrite ?Hf in *;
    try (split; [exact Ht | exists []; rewrite app_nil_r; reflexivity]).
  split.
  - rewrite !length_app. cbn [List.length]. lia.
  - eexists. rewrite <- app_assoc. reflexivity.
Qed.

Lemma loop_body_tally (family : str) (v : locals) (answer : option str)
    (lines : list str) :
  final_command v = None ->
  List.length (conversation_history v) = tally v ->
  let p := loop_body family v answer lines in
  List.length (conversation_history (vars p)) = tally (vars p)
  /\ exists more,
       conversation_history (vars p) = conversation_history v ++ more.
Proof.
  intros Hf Ht. cbv zeta.
  body_cases answer; try (apply clarify_tally; assumption);
    unfold tally in *;
    cbn [final_command iteration conversation_history set_final
         append_history incr_iteration] in *;
    rewrite ?Hf in *;
    try (split; [exact Ht | exists []; rewrite app_nil_r; reflexivity]).
  split.
  - rewrite length_app. cbn [List.length]. lia.
  - eexists. reflexivity.
Qed.

Lemma loop_iter_tally (family : str) (c : config) :
  sound c ->
  List.length (conversation_history (now c)) = tally (now c) ->
  List.length (conversation_history (now (loop_iter family c)))
  = tally (now (loop_iter family c))
  /\ exists more,
       conversation_history (now (loop_iter family c))
       = conversation_history (now c) ++ more.
Proof.
  intros Hs Ht.
  assert (Hsame : List.length (conversation_history (now c)) = tally (now c)
                  /\ exists more,
                       conversation_history (now c)
                       = conversation_history (now c) ++ more)
    by (split; [exact Ht | exists []; rewrite app_nil_r; reflexivity]).
  unfold loop_iter. destruct (st c) eqn:Est; try exact Hsame.
  destruct (iteration (now c) <? max_iterations); [|exact Hsame].
  destruct (llm c) as [|answer rest]; [exact Hsame|]. cbn [now].
  apply loop_body_tally; [|exact Ht].
  exact (sound_running c Hs Est).
Qed.

(** X16.  At every point of a request the history holds exactly one
    entry for the instruction, two for each clarification counted by the
    iteration counter and one more once an answer is accepted; its first
    entry is always "User: " followed by the instruction; and it never
    holds more than eleven entries. *)
Theorem history_tally (family user_instruction : str)
    (llm_answers : list (option str)) (lines : list str) (n : nat) :
  let c := run family n (start user_instruction llm_answers lines) in
  List.length (conversation_history (now c)) = tally (now c)
  /\ (exists more,
        conversation_history (now c)
        = (py "User: " ++ user_instruction) :: more)
  /\ List.length (conversation_history (now c)) <= 11.
Proof.
  cbv zeta.
  assert (H : forall k c,
             sound c ->
             List.length (conversation_history (now c)) = tally (now c) ->
             sound (run family k c)
             /\ List.length (conversation_history (now (run family k c)))
                = tally (now (run family k c))
             /\ exists more,
                  conversation_history (now (run family k c))
                  = conversation_history (now c) ++ more).
  { induction k as [|k IH]; intros c Hs Ht; cbn [run].
    - split; [exact Hs|]. split; [exact Ht|].
      exists []. rewrite app_nil_r. reflexivity.
    - destruct (loop_iter_tally family c Hs Ht) as [Ht1 [more1 Hm1]].
      destruct (IH _ (loop_iter_sound family c Hs) Ht1)
        as [Hs2 [Ht2 [more2 Hm2]]].
      split; [exact Hs2|]. split; [exact Ht2|].
      exists (more1 ++ more2). rewrite Hm2, Hm1, app_assoc. reflexivity. }
  destruct (H n _ (start_sound user_instruction llm_answers lines)
              eq_refl) as [Hs [Ht [more Hm]]].
  split; [exact Ht|]. split; [exists more; exact Hm|].
  rewrite Ht. unfold tally.
  pose proof (sound_bound _ Hs) as Hb. unfold max_iterations in Hb.
  destruct (final_command (now (run family n
                                  (start user_instruction llm_answers
                                         lines)))) eqn:Ef.
  - assert (Hlt := sound_final _ Hs).
    rewrite Ef in Hlt. specialize (Hlt ltac:(discriminate)).
    unfold max_iterations in Hlt. lia.
  - lia.
Qed.

Lemma clarify_no_query (label : str) (nag : event) (r : str) (v : locals)
    (lines : list str) (said : list event) :
  is_query nag = false -> forallb (fun e => negb (is_query e)) said = true ->
  let p := clarify label nag r v lines said in
  forallb (fun e => negb (is_query e)) (events p) = true
  /\ (how p = Continue -> exists line, lines = line :: stdin p).
Proof.
  intros Hnag Hsaid. cbv zeta.
  clarify_cases lines; rewrite ?forallb_app, ?Hsaid; cbn [forallb is_query negb andb];
    rewrite ?Hnag; (split; [reflexivity|]); try discriminate; eauto.
Qed.

Lemma loop_body_no_query (family : str) (v : locals) (answer : option str)
    (lines : list str) :
  let p := loop_body family v answer lines in
  forallb (fun e => negb (is_query e)) (events p) = true
  /\ (how p = Continue -> exists line, lines = line :: stdin p)
  /\ List.length (stdin p) <= List.length lines.
Proof.
  cbv zeta.
  pose proof (MainFacts.loop_body_stdin family v answer lines) as Hread.
  cbv zeta in Hread.
  assert (Hlen : List.length (stdin (loop_body family v answer lines))
                 <= List.length lines).
  { destruct Hread as [H | [line H]];
      apply (f_equal (@List.length str)) in H; cbn [List.length] in H; lia. }
  split; [|split; [|exact Hlen]]; clear Hread Hlen;
    body_cases answer; try reflexivity; try discriminate;
    apply clarify_no_query; reflexivity.
Qed.

Lemma llm_calls_app (prompt : str) (more t : list event) :
  forallb (fun e => negb (is_query e)) more = true ->
  List.length (filter is_query (t ++ Query prompt :: more))
  = List.length (filter is_query t) + 1.
Proof.
  intros H. rewrite filter_app, length_app. cbn [filter is_query List.length].
  assert (Hz : filter is_query more = []).
  { induction more as [|e more IH]; [reflexivity|].
    cbn [forallb] in H. apply andb_true_iff in H. destruct H as [He H].
    cbn [filter]. destruct (is_query e); [discriminate He | exact (IH H)]. }
  rewrite Hz. cbn [List.length]. lia.
Qed.

Lemma loop_iter_budget (family : str) (c : config) (limit : nat) :
  List.length (tty c) <= limit ->
  llm_calls c + List.length (tty c)
  + (match st c with Running => 1 | _ => 0 end) <= limit + 1 ->
  let c' := loop_iter family c in
  List.length (tty c') <= limit
  /\ llm_calls c' + List.length (tty c')
     + (match st c' with Running => 1 | _ => 0 end) <= limit + 1.
Proof.
  intros Hl Hc. cbv zeta. unfold loop_iter.
  destruct (st c) eqn:Est; try (rewrite Est; split; assumption).
  destruct (iteration (now c) <? max_iterations).
  - destruct (llm c) as [|answer rest].
    + unfold llm_calls in *. cbn [tty st trace]. split; [exact Hl | lia].
    + destruct (loop_body_no_query family (now c) answer (tty c))
        as [Hq [Hcont Hlen]].
      unfold llm_calls in *. cbn [tty st trace]. fold is_query in *.
      rewrite (llm_calls_app _ _ _ Hq).
      split; [lia|].
      destruct (how (loop_body family (now c) answer (tty c))) eqn:Eh;
        try lia.
      destruct (Hcont eq_refl) as [line Hline].
      apply (f_equal (@List.length str)) in Hline.
      cbn [List.length] in Hline. lia.
  - unfold llm_calls in *. cbn [tty st trace]. split; [exact Hl | lia].
Qed.

(** X17.  Within a request every query to the LLM after the first is
    paid for by a line read from the user: at every point the number of
    queries made so far is at most one more than the number of lines
    read so far. *)
Theorem llm_calls_bounded (family user_instruction : str)
    (llm_answers : list (option str)) (lines : list str) (n : nat) :
  let c := run family n (start user_instruction llm_answers lines) in
  List.length (tty c) <= List.length lines
  /\ llm_calls c <= 1 + (List.length lines - List.length (tty c)).
Proof.
  cbv zeta.
  assert (H : forall k c,
             List.length (tty c) <= List.length lines ->
             llm_calls c + List.length (tty c)
             + (match st c with Running => 1 | _ => 0 end)
             <= List.length lines + 1 ->
             List.length (tty (run family k c)) <= List.length lines
             /\ llm_calls (run family k c)
                + List.length (tty (run family k c))
                <= List.length lines + 1).
  { induction k as [|k IH]; intros c Hl Hc; cbn [run].
    - split; [exact Hl|]. destruct (st c); lia.
    - destruct (loop_iter_budget family c (List.length lines) Hl Hc)
        as [Hl' Hc'].
      apply IH; assumption. }
  destruct (H n (start user_instruction llm_answers lines)) as [Hl Hc].
  - cbn [start tty]. lia.
  - unfold llm_calls. cbn [start trace tty st filter List.length]. lia.
  - split; [exact Hl | lia].
Qed.

(** X18.  A response whose only backticks are one run of seven or more
    is accepted on the spot, for every family, with the single backtick
    as the final command: the backtick passes both [is_valid_command]
    and [is_command_for_distro]. *)
Theorem backtick_run_accepted (family : str) (v : locals) (a b : str)
    (k : nat) (lines : list str) :
  ~ In backtick a -> ~ In backtick b -> 7 <= k ->
  let llm_response := a ++ ticks k ++ b in
  loop_body family v (Some llm_response) lines
  = {| how := Break;
       vars := {| conversation_history :=
                    conversation_history v
                    ++ [py "Assistant: " ++ llm_response];
                  final_command := Some [backtick];
                  iteration := iteration v |};
       stdin := lines; events := [] |}.
Proof.
  intros Ha Hb Hk. cbv zeta.
  assert (He : extract_command (a ++ ticks k ++ b) = [backtick]).
  { unfold extract_command.
    rewrite (ExtractEdge.search_single_one_run a k b Ha Hb).
    rewrite (ExtractEdge.search_triple_skip a _ Ha).
    rewrite (ExtractEdge.search_triple_long k b Hk). reflexivity. }
  unfold loop_body.
  destruct (a ++ ticks k ++ b) as [|ch r] eqn:E.
  - apply (f_equal (@List.length ascii)) in E.
    rewrite !length_app in E. unfold ticks in E.
    rewrite repeat_length in E. cbn [List.length] in E. lia.
  - rewrite He. reflexivity.
Qed.

Lemma backtick_run_accepted_witness :
  final_command
    (vars (loop_body (py "Ubuntu/Debian-based")
             {| conversation_history := [py "User: hello"];
                final_command := None; iteration := 0 |}
             (Some (py "Here: " ++ ticks 7)) []))
  = Some [backtick].
Proof.
  rewrite <- (app_nil_r (ticks 7)).
  rewrite (backtick_run_accepted (py "Ubuntu/Debian-based")
             {| conversation_history := [py "User: hello"];
                final_command := None; iteration := 0 |}
             (py "Here: ") [] 7 []).
  - reflexivity.
  - vm_compute. intuition discriminate.
  - intros [].
  - lia.
Defined.

End ControllerEdge.
